(** * note-to-md: Supernote capture ingestion (main.py)

    A shallow embedding of [src/main.py]: the processed-files ledger, the
    input scanner, the recognition-response validation, the daily-note merge
    and the batch loop with its exit code and Git step.

    Conventions of the embedding.
    - A Python [str] is a list of Unicode code points ([list N]).
    - A text file is the [str] obtained by decoding it; a file that is absent
      is [None].  Text-mode reads apply Python's universal-newlines
      translation; writes are verbatim (POSIX [os.linesep]).
    - External collaborators (the converter, the HTTP service, Git and the
      I/O faults of the file system) are oracles: a record of outcomes that a
      run consumes.  Every [print] that matters to the behaviour is an event
      of the run's trace.
    - An exception that no handler catches ends the process with a traceback
      and exit status 1: the [KeyError] of [os.environ["PATH"]], an
      unreadable credential file, [os.makedirs] and [os.listdir].
    - The daily document is written call by call: [f.write] encodes its text
      to UTF-8 and writes it whole or, for a text with a surrogate code
      point, raises [UnicodeEncodeError] and writes nothing; what the earlier
      calls wrote stays in the file.  [os.makedirs], [open] and [read] of the
      target file fail, if they do, before the first write.
    - Library behaviour is that of CPython 3.11 on Linux: [_strptime]'s
      patterns for [%Y], [%m], [%d], and glibc's [%Y], which does not pad.
    - Left out: a device fault in the middle of the writes, an unreadable
      ledger, another [OSError] than a missing executable when Git is
      started, a [print] that fails, and the PDF files of the attachments
      directory. *)

From Stdlib Require Import NArith ZArith Lia List Bool String Ascii.
From stdpp Require Import base decidable option list sorting countable gmap.

Open Scope N_scope.
Open Scope list_scope.

(** ** Python strings *)

Module PyStr.

Abbreviation char := N (only parsing).
Abbreviation str := (list N) (only parsing).

Definition LF : char := 10.
Definition CR : char := 13.

(** ASCII literals of the source, read as code points. *)
Fixpoint lit (s : String.string) : str :=
  match s with
  | EmptyString => []
  | String a t => N_of_ascii a :: lit t
  end.

(** [Py_UNICODE_ISSPACE]: what [str.strip()] without arguments removes. *)
Definition isspace (c : char) : bool :=
  ((9 <=? c) && (c <=? 13)) || ((28 <=? c) && (c <=? 32))
  || (c =? 133) || (c =? 160) || (c =? 5760)
  || ((8192 <=? c) && (c <=? 8202))
  || (c =? 8232) || (c =? 8233) || (c =? 8239) || (c =? 8287) || (c =? 12288).

Fixpoint lstrip_by (p : char -> bool) (s : str) : str :=
  match s with
  | [] => []
  | c :: t => if p c then lstrip_by p t else s
  end.

Definition rstrip_by (p : char -> bool) (s : str) : str :=
  rev (lstrip_by p (rev s)).

(** [s.strip()] *)
Definition strip (s : str) : str := lstrip_by isspace (rstrip_by isspace s).

(** [s.lstrip('\n')] *)
Definition lstrip_nl (s : str) : str := lstrip_by (N.eqb LF) s.

Fixpoint str_eqb (a b : str) : bool :=
  match a, b with
  | [], [] => true
  | x :: a', y :: b' => (x =? y) && str_eqb a' b'
  | _, _ => false
  end.

(** [s.startswith(p)] *)
Fixpoint startswith (p s : str) : bool :=
  match p, s with
  | [], _ => true
  | x :: p', y :: s' => (x =? y) && startswith p' s'
  | _ :: _, [] => false
  end.

(** [s.endswith(p)] *)
Definition endswith (p s : str) : bool := startswith (rev p) (rev s).

(** [p in s] *)
Fixpoint contains (p s : str) : bool :=
  startswith p s || match s with [] => false | _ :: t => contains p t end.

(** Number of positions of [s] at which [p] starts. *)
Fixpoint occurrences (p s : str) : nat :=
  ((if startswith p s then 1 else 0)
   + match s with [] => 0 | _ :: t => occurrences p t end)%nat.

(** [sep.join(l)] *)
Fixpoint join (sep : str) (l : list str) : str :=
  match l with
  | [] => []
  | [x] => x
  | x :: t => x ++ sep ++ join sep t
  end.

(** Lexicographic order on code points: [<=] of Python strings, the order of
    [sorted]. *)
Fixpoint str_leb (a b : str) : bool :=
  match a, b with
  | [], _ => true
  | _ :: _, [] => false
  | x :: a', y :: b' => (x <? y) || ((x =? y) && str_leb a' b')
  end.

(** Universal newlines: what a text-mode read ([newline=None]) returns for
    the decoded file [s]; "\r\n" and a lone "\r" become "\n". *)
Fixpoint universal_newlines (s : str) : str :=
  match s with
  | [] => []
  | c :: t =>
      if c =? CR then
        LF :: match t with
              | d :: t' => if d =? LF then universal_newlines t' else universal_newlines t
              | [] => []
              end
      else c :: universal_newlines t
  end.

(** The translation of one character that ends a line. *)
Definition newline_of (c : char) : char := if c =? CR then LF else c.

(** [for line in f]: the lines of a text, each with its terminating "\n";
    a last line without terminator is kept when it is not empty. *)
Fixpoint lines_from (cur : str) (s : str) : list str :=
  match s with
  | [] => match cur with [] => [] | _ => [rev cur] end
  | c :: t =>
      if c =? LF then rev (c :: cur) :: lines_from [] t
      else lines_from (c :: cur) t
  end.

Definition file_lines (s : str) : list str := lines_from [] s.

(** A code point that UTF-8 does not encode: a surrogate, as [json] decodes
    it from a lone "\ud800". *)
Definition surrogate (c : char) : bool := (55296 <=? c) && (c <=? 57343).

(** [s.encode('utf-8')] does not raise. *)
Definition encodable (s : str) : bool := forallb (fun c => negb (surrogate c)) s.

End PyStr.

Import PyStr.

(** ** Exceptions

    The exception classes the per-item [try] distinguishes, and those that
    reach its last handler. *)

Inductive exn :=
| CalledProcessError
| RequestException
| KeyError
| IndexError
| ValueError
| UnicodeEncodeError   (* a ValueError *)
| AttributeError
| TypeError
| FileNotFoundError    (* an OSError *)
| OSError.

Inductive result (A : Type) :=
| Ok (a : A)
| Raise (e : exn).

Arguments Ok {A} a.
Arguments Raise {A} e.

Definition result_bind {A B} (r : result A) (k : A -> result B) : result B :=
  match r with
  | Ok a => k a
  | Raise e => Raise e
  end.

Declare Scope result_scope.
Delimit Scope result_scope with result.
Notation "'try' x <- r ; k" := (result_bind r (fun x => k))
  (at level 10, x name, r at level 100, k at level 200) : result_scope.

(** ** The processed-files ledger *)

Module Ledger.

(** [load_processed_files]: one [processed.add(line.strip())] per line of the
    log; [FileNotFoundError] leaves the set empty. *)
Definition load_processed_files (log_file : option str) : gset str :=
  match log_file with
  | None => ∅
  | Some raw =>
      fold_left (fun processed line => processed ∪ {[ strip line ]})
                (file_lines (universal_newlines raw)) ∅
  end.

(** The ledger as the specification words it: the trimmed lines that are not
    empty. *)
Definition spec_load (log_file : option str) : gset str :=
  match log_file with
  | None => ∅
  | Some raw =>
      list_to_set
        (filter (fun l => l <> []) (map strip (file_lines (universal_newlines raw))))
  end.

(** The file after [f.write(f"{filename}\n")] in append mode. *)
Definition appended (log_file : option str) (filename : str) : option str :=
  Some (default [] log_file ++ filename ++ [LF]).

End Ledger.

(** ** The recognition response *)

Module Json.

(** The value [response.json()] returns: dict, list, str, number, bool, None. *)
#[warnings="-register-all"]
Inductive json :=
| JNull
| JBool (b : bool)
| JNum (z : Z)
| JStr (s : str)
| JArr (l : list json)
| JObj (m : list (str * json)).

(** Python truthiness, the meaning of [not v]. *)
Definition truthy (v : json) : bool :=
  match v with
  | JNull => false
  | JBool b => b
  | JNum z => negb (z =? 0)%Z
  | JStr s => match s with [] => false | _ => true end
  | JArr l => match l with [] => false | _ => true end
  | JObj m => match m with [] => false | _ => true end
  end.

Fixpoint lookup_key (k : str) (m : list (str * json)) : option json :=
  match m with
  | [] => None
  | (k', v) :: m' => if str_eqb k k' then Some v else lookup_key k m'
  end.

(** [v.get(k)] *)
Definition py_get (v : json) (k : str) : result json :=
  match v with
  | JObj m => Ok (default JNull (lookup_key k m))
  | _ => Raise AttributeError
  end.

(** [v[k]] for a string key *)
Definition py_item (v : json) (k : str) : result json :=
  match v with
  | JObj m => match lookup_key k m with Some x => Ok x | None => Raise KeyError end
  | _ => Raise TypeError
  end.

(** [v[0]] *)
Definition py_index0 (v : json) : result json :=
  match v with
  | JArr (x :: _) => Ok x
  | JArr [] => Raise IndexError
  | JStr (c :: _) => Ok (JStr [c])
  | JStr [] => Raise IndexError
  | JObj _ => Raise KeyError
  | _ => Raise TypeError
  end.

Definition require (v : json) : result unit :=
  if truthy v then Ok tt else Raise ValueError.

Local Open Scope result_scope.

(** Lines 231-239: the four guarded probes, left to right, then the value
    [response_json['candidates'][0]['content']['parts'][0]['text']]. *)
Definition extract_text (response_json : json) : result json :=
  try c <- py_get response_json (lit "candidates");
  try _ <- require c;
  try candidates <- py_item response_json (lit "candidates");
  try c0 <- py_index0 candidates;
  try ct <- py_get c0 (lit "content");
  try _ <- require ct;
  try content <- py_item c0 (lit "content");
  try ps <- py_get content (lit "parts");
  try _ <- require ps;
  try parts <- py_item content (lit "parts");
  try p0 <- py_index0 parts;
  try tx <- py_get p0 (lit "text");
  try _ <- require tx;
  py_item p0 (lit "text").

(** A response in which one of the nested fields candidates, content, parts
    or text is missing, the levels above it having the expected shape. *)
Inductive missing_field : json -> Prop :=
| missing_candidates m :
    lookup_key (lit "candidates") m = None ->
    missing_field (JObj m)
| missing_content m c0 cs :
    lookup_key (lit "candidates") m = Some (JArr (JObj c0 :: cs)) ->
    lookup_key (lit "content") c0 = None ->
    missing_field (JObj m)
| missing_parts m c0 cs ct :
    lookup_key (lit "candidates") m = Some (JArr (JObj c0 :: cs)) ->
    lookup_key (lit "content") c0 = Some (JObj ct) ->
    lookup_key (lit "parts") ct = None ->
    missing_field (JObj m)
| missing_text m c0 cs ct p0 ps :
    lookup_key (lit "candidates") m = Some (JArr (JObj c0 :: cs)) ->
    lookup_key (lit "content") c0 = Some (JObj ct) ->
    lookup_key (lit "parts") ct = Some (JArr (JObj p0 :: ps)) ->
    lookup_key (lit "text") p0 = None ->
    missing_field (JObj m).

(** [markdown_content.strip()] *)
Definition py_strip (v : json) : result str :=
  match v with
  | JStr s => Ok (strip s)
  | _ => Raise AttributeError
  end.

End Json.

(** ** The daily-note merge *)

Module Merge.

(** ["## ✨ Supernote"]; U+2728 is 10024. *)
Definition supernote_header_text : str := lit "## " ++ [10024] ++ lit " Supernote".

(** [entry_block.lstrip('\n')] for [entry_block = f"\n{stripped}\n"], where
    [stripped] is [markdown_content.strip()]. *)
Definition entry (stripped : str) : str := lstrip_nl ([LF] ++ stripped ++ [LF]).

(** Lines 257-259. *)
Definition separator (content : str) : str :=
  let separator :=
    if negb (str_eqb content []) && negb (endswith [LF] content)
    then [LF; LF] else [LF] in
  let separator :=
    if negb (endswith [LF; LF] content) && endswith [LF] content
    then [LF] else separator in
  if str_eqb content [] then [] else separator.

(** The separator as the specification words it. *)
Definition spec_separator (content : str) : str :=
  if str_eqb content [] then []
  else if endswith [LF] content && negb (endswith [LF; LF] content) then [LF]
  else [LF; LF].

Inductive merge_case := Created | HeaderAdded | Appended.

(** Which of the three branches runs for the target file. *)
Definition case_of (existing : option str) : merge_case :=
  match existing with
  | None => Created
  | Some raw =>
      if negb (contains supernote_header_text (universal_newlines raw))
      then HeaderAdded else Appended
  end.

(** The header lines a branch writes. *)
Definition header_added (how : merge_case) : nat :=
  match how with Appended => 0 | _ => 1 end.

(** What lines 247-269 write: the whole file in mode 'w', the text put at the
    end of the file in mode 'r+'. *)
Definition written (existing : option str) (stripped : str) : str :=
  match existing with
  | None => supernote_header_text ++ [LF] ++ entry stripped
  | Some raw =>
      let content := universal_newlines raw in
      if negb (contains supernote_header_text content) then
        separator content ++ supernote_header_text ++ [LF] ++ entry stripped
      else
        (if negb (str_eqb content []) && negb (endswith [LF] content)
         then [LF] else [])
        ++ entry stripped
  end.

(** What lines 247-269 write before the entry: the calls of [f.write] that
    come before [f.write(entry_block.lstrip('\n'))]. *)
Definition preamble (existing : option str) : str :=
  match existing with
  | None => supernote_header_text ++ [LF]
  | Some raw =>
      let content := universal_newlines raw in
      if negb (contains supernote_header_text content) then
        separator content ++ supernote_header_text ++ [LF]
      else
        if negb (str_eqb content []) && negb (endswith [LF] content)
        then [LF] else []
  end.

(** The target file after the merge. *)
Definition merged (existing : option str) (stripped : str) : str :=
  default [] existing ++ written existing stripped.

(** The merge of a fragment as the recognition step returned it. *)
Definition merge (existing : option str) (markdown_content : str) : str :=
  merged existing (strip markdown_content).

End Merge.

(** ** The search path *)

Module Config.

(** Lines 52-59: [SUPERNOTE_TOOL_PATH] is put in front of [PATH] unless it is
    unset, empty or already a substring of [PATH]; [os.environ["PATH"]] raises
    [KeyError] when [PATH] is unset.  [None] is an unset variable. *)
Definition configure_path (tool_path : option str) (path : option str)
    : result (option str) :=
  match tool_path with
  | None => Ok path
  | Some [] => Ok path
  | Some tool =>
      match path with
      | None => Raise KeyError
      | Some p =>
          if negb (contains tool p) then Ok (Some (tool ++ lit ":" ++ p))
          else Ok (Some p)
      end
  end.

End Config.

(** ** The batch run *)

Module Run.

Import Json Merge Ledger Config.

(** *** Dates: [datetime.strptime(s, "%Y%m%d")] and [strftime] *)

Record date := { year : N; month : N; day : N }.

Definition ascii_digit (c : char) : option N :=
  if (48 <=? c) && (c <=? 57) then Some (c - 48) else None.

Definition is_leap (y : N) : bool :=
  ((y mod 4 =? 0) && negb (y mod 100 =? 0)) || (y mod 400 =? 0).

Definition days_in_month (y m : N) : N :=
  if m =? 2 then (if is_leap y then 29 else 28)
  else if (m =? 4) || (m =? 6) || (m =? 9) || (m =? 11) then 30
  else 31.

(** A year, a month and a day that [datetime] takes for a date. *)
Definition calendar_date (y m d : N) : bool :=
  (1 <=? y) && (y <=? 9999) && (1 <=? m) && (m <=? 12)
  && (1 <=? d) && (d <=? days_in_month y m).

(** [_strptime]'s group for [%m] is [1[0-2]|0[1-9]|[1-9]].  The date part
    has eight characters and [%Y] takes four, so that a month or a day of
    one character leaves unconverted data, which is a ValueError: only the
    alternatives of two characters are left. *)
Definition month_of (m1 m2 : char) : option N :=
  if (m1 =? 49) && (48 <=? m2) && (m2 <=? 50) then Some (10 + (m2 - 48))
  else if (m1 =? 48) && (49 <=? m2) && (m2 <=? 57) then Some (m2 - 48)
  else None.

Definition two_digits (n : N) : str := [48 + (n / 10) mod 10; 48 + n mod 10].

Definition four_digits (n : N) : str :=
  [48 + (n / 1000) mod 10; 48 + (n / 100) mod 10; 48 + (n / 10) mod 10; 48 + n mod 10].

(** [%Y] of glibc's [strftime]: the year in decimal, not padded.  The years
    of [datetime] are 1 to 9999. *)
Definition year_digits (y : N) : str :=
  if y <? 10 then [48 + y]
  else if y <? 100 then [48 + y / 10; 48 + y mod 10]
  else if y <? 1000 then [48 + y / 100; 48 + (y / 10) mod 10; 48 + y mod 10]
  else four_digits y.

(** [f"{year_str}-{month_str}-{day_str}"] *)
Definition ymd_string (d : date) : str :=
  year_digits (year d) ++ lit "-" ++ two_digits (month d) ++ lit "-" ++ two_digits (day d).

(** *** Events of a run *)

Inductive error_class :=
| ConversionError      (* except subprocess.CalledProcessError *)
| HttpError            (* except requests.exceptions.RequestException *)
| ParseError           (* except (KeyError, IndexError, ValueError) *)
| UnexpectedError.     (* except Exception *)

(** The [except] clauses of lines 284-297, first match first. *)
Definition classify (e : exn) : error_class :=
  match e with
  | CalledProcessError => ConversionError
  | RequestException => HttpError
  | KeyError | IndexError | ValueError | UnicodeEncodeError => ParseError
  | AttributeError | TypeError | FileNotFoundError | OSError => UnexpectedError
  end.

Inductive item_event :=
| Processing (filename : str)
| Converted (filename : str)
| Recognized (filename : str)
| Merged (filename : str) (md_filename : str) (how : merge_case)
| LedgerRecord (filename : str) (ok : bool)
| CriticalWarning (filename : str)
| Succeeded (filename : str)
| Failed (filename : str) (cls : error_class).

Inductive git_event :=
| GitRevParse
| GitSkipWarning
| GitAdd
| GitStatus
| GitNothingToCommit
| GitCommit (message : str)
| GitPush.

Inductive fatal :=
| CredentialMissing
| CredentialEmpty
| InputDirMissing.

Inductive verdict :=
| FinishedWithErrors
| FinishedPartial
| FinishedOk.

Inductive event :=
| Uncaught (e : exn)
| FatalError (why : fatal)
| NothingToDo
| Item (e : item_event)
| Git (g : git_event)
| NoGit
| Summary (found already attempted succeeded failed : Z)
| Finished (v : verdict).

(** The Git commands and notices of a trace, in order. *)
Definition git_events (t : list event) : list git_event :=
  omap (fun e => match e with Git g => Some g | _ => None end) t.

(** In a log, every ledger record comes right after the conversion, the
    recognition and the merge of the same file. *)
Definition ledger_after_merge (l : list item_event) : Prop :=
  forall pre post filename ok,
    l = pre ++ LedgerRecord filename ok :: post ->
    exists pre' md how,
      pre = pre' ++ [Converted filename; Recognized filename;
                     Merged filename md how].

(** *** The environment of a run *)

(** What the collaborators answer for one capture file; [None] is a call
    that returns normally. *)
Record item_env := {
  convert_result : option exn;       (* subprocess.run([... "convert" ...], check=True) *)
  pdf_read_result : option exn;      (* open(pdf_path, "rb").read() *)
  post_result : result json;         (* requests.post; raise_for_status; response.json() *)
  merge_io_result : option exn;      (* os.makedirs, open and read of the target file *)
  ledger_append_ok : bool            (* what add_to_processed_log returns *)
}.

Inductive rev_parse_outcome :=
| RevParseTrue       (* exit 0, stdout "true" *)
| RevParseOther      (* exit 0, other stdout *)
| RevParseFailed.    (* CalledProcessError or FileNotFoundError *)

Record git_env := {
  rev_parse : rev_parse_outcome;
  add_ok : bool;
  status_dirty : bool;
  commit_ok : bool;
  push_ok : bool
}.

(** What a run starts from.  [tool_path] and [search_path] are the variables
    SUPERNOTE_TOOL_PATH and PATH as [os.getenv] and [os.environ] give them
    once the .env file is loaded, [None] when unset; [credential_file] is
    what [open(...).read()] of the key file gives; [input_dir] lists the
    entries of SUPERNOTE_INPUT_DIR with [os.path.isfile] of each, [None] when
    it is no directory; [documents] are the files of OBSIDIAN_OUTPUT_DIR by
    name; the two faults are what [os.makedirs] (lines 137-139) and
    [os.listdir] (line 142) raise, if they do. *)
Record world := {
  tool_path : option str;
  search_path : option str;
  credential_file : result str;
  processed_log_file : option str;
  input_dir : option (list (str * bool));
  output_dir_fault : option exn;
  listdir_fault : option exn;
  documents : gmap str str
}.

Record state := {
  docs : gmap str str;
  ledger : option str;
  already_processed_files : gset str;
  processed_dates_for_commit : gset str;
  any_file_processed_successfully_this_run : bool;
  newly_processed_count : nat;
  log : list item_event
}.

Record outcome := {
  exit_code : N;
  trace : list event;
  final : state
}.

(** *** State and exceptions of the loop body *)

Definition M (A : Type) : Type := state -> result A * state.

Definition ret {A} (a : A) : M A := fun st => (Ok a, st).

Definition bind {A B} (m : M A) (k : A -> M B) : M B :=
  fun st => match m st with
            | (Ok a, st') => k a st'
            | (Raise e, st') => (Raise e, st')
            end.

Definition lift {A} (r : result A) : M A := fun st => (r, st).

Definition check (o : option exn) : M unit :=
  lift (match o with None => Ok tt | Some e => Raise e end).

Declare Scope run_scope.
Delimit Scope run_scope with run.
Notation "'do' x <- m ; k" := (bind m (fun x => k))
  (at level 10, x name, m at level 100, k at level 200) : run_scope.
Notation "'run' m ; k" := (bind m (fun _ => k))
  (at level 10, m at level 100, k at level 200) : run_scope.

(** The state after some [print]s. *)
Definition logged (st : state) (events : list item_event) : state :=
  {| docs := docs st; ledger := ledger st;
     already_processed_files := already_processed_files st;
     processed_dates_for_commit := processed_dates_for_commit st;
     any_file_processed_successfully_this_run :=
       any_file_processed_successfully_this_run st;
     newly_processed_count := newly_processed_count st;
     log := log st ++ events |}.

Definition emit (e : item_event) : M unit :=
  fun st => (Ok tt, logged st [e]).

(** The state with other documents. *)
Definition set_docs (d : gmap str str) (st : state) : state :=
  {| docs := d; ledger := ledger st;
     already_processed_files := already_processed_files st;
     processed_dates_for_commit := processed_dates_for_commit st;
     any_file_processed_successfully_this_run :=
       any_file_processed_successfully_this_run st;
     newly_processed_count := newly_processed_count st;
     log := log st |}.

(** [os.path.isfile] and, for a file that is there, its text. *)
Definition stored (md_filename : str) : M (option str) :=
  fun st => (Ok (docs st !! md_filename), st).

(** [open(path, 'w')]: the file is there and empty. *)
Definition open_w (md_filename : str) : M unit :=
  fun st => (Ok tt, set_docs (<[ md_filename := [] ]> (docs st)) st).

(** [f.write(text)] at the end of the file: the text is encoded and put
    after what the file holds, or the call raises and writes nothing. *)
Definition f_write (md_filename text : str) : M unit :=
  fun st =>
    if encodable text then
      (Ok tt,
       set_docs (<[ md_filename := default [] (docs st !! md_filename) ++ text ]>
                   (docs st)) st)
    else (Raise UnicodeEncodeError, st).

Local Open Scope run_scope.

(** Lines 247-269 on the store of daily documents, write by write. *)
Definition write_document (md_filename : str) (stripped : str) : M merge_case :=
  do existing <- stored md_filename;
  match existing with
  | None =>
      run open_w md_filename;
      run f_write md_filename (supernote_header_text ++ [LF]);
      run f_write md_filename (entry stripped);
      ret Created
  | Some raw =>
      let content := universal_newlines raw in
      if negb (contains supernote_header_text content) then
        run f_write md_filename (separator content);
        run f_write md_filename (supernote_header_text ++ [LF]);
        run f_write md_filename (entry stripped);
        ret HeaderAdded
      else
        run (if negb (str_eqb content []) && negb (endswith [LF] content)
             then f_write md_filename [LF] else ret tt);
        run f_write md_filename (entry stripped);
        ret Appended
  end.

(** [add_to_processed_log], lines 94-103, and line 273. *)
Definition add_to_processed_log (filename : str) (ok : bool) : M bool :=
  fun st => (Ok ok,
    {| docs := docs st;
       ledger := if ok then appended (ledger st) filename else ledger st;
       already_processed_files :=
         if ok then already_processed_files st ∪ {[ filename ]}
         else already_processed_files st;
       processed_dates_for_commit := processed_dates_for_commit st;
       any_file_processed_successfully_this_run :=
         any_file_processed_successfully_this_run st;
       newly_processed_count := newly_processed_count st;
       log := log st ++ [LedgerRecord filename ok] |}).

(** Lines 279-281. *)
Definition mark_processed (ymd : str) : M unit :=
  fun st => (Ok tt,
    {| docs := docs st; ledger := ledger st;
       already_processed_files := already_processed_files st;
       processed_dates_for_commit := processed_dates_for_commit st ∪ {[ ymd ]};
       any_file_processed_successfully_this_run := true;
       newly_processed_count := S (newly_processed_count st);
       log := log st |}).

(** The files a log reports as processed. *)
Definition succeeded_in (l : list item_event) : nat :=
  length (List.filter (fun e => match e with Succeeded _ => true | _ => false end) l).

(** Line 62: the key as read from the credential file and trimmed. *)
Definition GOOGLE_API_KEY (key_file : str) : str :=
  strip (universal_newlines key_file).

(** The events one file adds to the log: the file is passed over, or its
    body stops after some stages, or it runs to its end. *)
Definition chunk_ok (filename : str) (chunk : list item_event) : Prop :=
  chunk = [Processing filename]
  \/ (exists events cls,
        chunk = Processing filename :: events ++ [Failed filename cls]
        /\ (events = [] \/ events = [Converted filename]
            \/ events = [Converted filename; Recognized filename]))
  \/ (exists md how ok,
        chunk = [Processing filename; Converted filename; Recognized filename;
                 Merged filename md how; LedgerRecord filename ok]
                ++ (if ok then [] else [CriticalWarning filename])
                ++ [Succeeded filename]).

(** What the counters and the touched dates of a state say, against its
    log. *)
Definition consistent (st : state) : Prop :=
  (any_file_processed_successfully_this_run st = true
   <-> exists f, In (Succeeded f) (log st))
  /\ (any_file_processed_successfully_this_run st = true
      <-> processed_dates_for_commit st <> ∅)
  /\ (forall f ok, In (LedgerRecord f ok) (log st) ->
        In (Succeeded f) (log st)
        /\ exists ymd how,
             In (Merged f (ymd ++ lit ".md") how) (log st)
             /\ ymd ∈ processed_dates_for_commit st)
  /\ ledger_after_merge (log st)
  /\ newly_processed_count st = succeeded_in (log st).

(** The part of a state that the exit code, the summary and the commit are
    computed from, with the documents. *)
Definition core (st : state) : gmap str str * gset str * bool * nat :=
  (docs st, processed_dates_for_commit st,
   any_file_processed_successfully_this_run st, newly_processed_count st).

Section Program.

(** The decimal value of a code point of Unicode category Nd: the table
    behind [\d] and [int]. *)
Variable decimal_value : char -> option N.

Variable env : str -> item_env.
Variable git : git_env.

Definition isdecimal (c : char) : bool :=
  match decimal_value c with Some _ => true | None => false end.

(** [int(s)] for a text of decimal digits. *)
Definition int_of (s : str) : option N :=
  fold_left (fun acc c =>
               match acc, decimal_value c with
               | Some n, Some v => Some (10 * n + v)
               | _, _ => None
               end) s (Some 0).

(** [re.match(r"(\d{8})_(\d{6})\.note", filename)]: the two groups. The
    match is anchored at the start of the name only. *)
Definition re_match_note (filename : str) : option (str * str) :=
  let date_part := take 8 filename in
  let rest := drop 8 filename in
  let time_part := take 6 (drop 1 rest) in
  if (length date_part =? 8)%nat && forallb isdecimal date_part
     && startswith (lit "_") rest
     && (length time_part =? 6)%nat && forallb isdecimal time_part
     && startswith (lit ".note") (drop 7 rest)
  then Some (date_part, time_part) else None.

(** The anchored pattern [^\d{8}_\d{6}\.note$] of the specification. *)
Definition fullmatch_note (filename : str) : bool :=
  match re_match_note filename with
  | Some _ => (length filename =? 20)%nat
  | None => false
  end.

(** [_strptime]'s group for [%d] is [3[0-1]|[1-2]\d|0[1-9]|[1-9]| [1-9]]:
    after 1 or 2 the second character is any decimal digit, which [int]
    reads by its value.  Of the alternatives of two characters (see
    [month_of]) the last is a space and a digit. *)
Definition day_of (d1 d2 : char) : option N :=
  if (d1 =? 51) && (48 <=? d2) && (d2 <=? 49) then Some (30 + (d2 - 48))
  else if (d1 =? 49) || (d1 =? 50) then
    match decimal_value d2 with
    | Some v => Some (10 * (d1 - 48) + v)
    | None => None
    end
  else if ((d1 =? 48) || (d1 =? 32)) && (49 <=? d2) && (d2 <=? 57)
  then Some (d2 - 48)
  else None.

(** [datetime.strptime(date_part_str, "%Y%m%d")] on the eight characters of
    the date part: [%Y] is [\d\d\d\d] read by [int], then the month and the
    day; [datetime] has to take the three numbers for a date. *)
Definition strptime_Ymd (s : str) : result date :=
  match s with
  | [y1; y2; y3; y4; m1; m2; d1; d2] =>
      match decimal_value y1, decimal_value y2, decimal_value y3, decimal_value y4,
            month_of m1 m2, day_of d1 d2 with
      | Some a, Some b, Some c, Some d, Some m, Some dd =>
          let y := 1000 * a + 100 * b + 10 * c + d in
          if calendar_date y m dd
          then Ok {| year := y; month := m; day := dd |}
          else Raise ValueError
      | _, _, _, _, _, _ => Raise ValueError
      end
  | _ => Raise ValueError
  end.

(** The body of the [try], lines 164-282. *)
Definition process_item (filename : str) : M unit :=
  run emit (Processing filename);
  match re_match_note filename with
  | None => ret tt
  | Some (date_part_str, time_part_str) =>
      do date_obj <- lift (strptime_Ymd date_part_str);
      let ymd := ymd_string date_obj in
      let obsidian_md_filename := ymd ++ lit ".md" in
      run check (convert_result (env filename));
      run emit (Converted filename);
      run check (pdf_read_result (env filename));
      do response_json <- lift (post_result (env filename));
      do markdown_content <- lift (extract_text response_json);
      run emit (Recognized filename);
      do stripped <- lift (py_strip markdown_content);
      run check (merge_io_result (env filename));
      do how <- write_document obsidian_md_filename stripped;
      run emit (Merged filename obsidian_md_filename how);
      do logged <- add_to_processed_log filename (ledger_append_ok (env filename));
      run (if logged then ret tt else emit (CriticalWarning filename));
      run mark_processed ymd;
      emit (Succeeded filename)
  end.

(** The daily document of a capture file: the name made from the date of
    its name. *)
Definition target_of (filename : str) : option str :=
  match re_match_note filename with
  | Some (date_part_str, _) =>
      match strptime_Ymd date_part_str with
      | Ok date_obj => Some (ymd_string date_obj ++ lit ".md")
      | Raise _ => None
      end
  | None => None
  end.

(** How far the body gets for one file, read off the answers of the
    collaborators: the events after [Processing] and the exception that stops
    it before the target file is written; or the date and the trimmed
    fragment that reach the writes, which stop at a fragment that cannot be
    encoded and else run to their end. *)
Inductive progress :=
| NoMatch
| Stopped (events : list item_event) (e : exn)
| WriteStopped (ymd : str) (stripped : str)
| Completed (ymd : str) (stripped : str).

Definition progress_of (filename : str) : progress :=
  match re_match_note filename with
  | None => NoMatch
  | Some (date_part_str, _) =>
  match strptime_Ymd date_part_str with
  | Raise e => Stopped [] e
  | Ok date_obj =>
  match convert_result (env filename) with
  | Some e => Stopped [] e
  | None =>
  match pdf_read_result (env filename) with
  | Some e => Stopped [Converted filename] e
  | None =>
  match post_result (env filename) with
  | Raise e => Stopped [Converted filename] e
  | Ok response_json =>
  match extract_text response_json with
  | Raise e => Stopped [Converted filename] e
  | Ok markdown_content =>
  match py_strip markdown_content with
  | Raise e => Stopped [Converted filename; Recognized filename] e
  | Ok stripped =>
  match merge_io_result (env filename) with
  | Some e => Stopped [Converted filename; Recognized filename] e
  | None =>
      if encodable stripped then Completed (ymd_string date_obj) stripped
      else WriteStopped (ymd_string date_obj) stripped
  end end end end end end end end.

(** The state after a body that ran to its end. *)
Definition completed (st : state) (filename ymd stripped : str) : state :=
  let md := ymd ++ lit ".md" in
  let ok := ledger_append_ok (env filename) in
  {| docs := <[ md := merged (docs st !! md) stripped ]> (docs st);
     ledger := if ok then appended (ledger st) filename else ledger st;
     already_processed_files :=
       if ok then already_processed_files st ∪ {[ filename ]}
       else already_processed_files st;
     processed_dates_for_commit := processed_dates_for_commit st ∪ {[ ymd ]};
     any_file_processed_successfully_this_run := true;
     newly_processed_count := S (newly_processed_count st);
     log := log st
            ++ [Processing filename; Converted filename; Recognized filename;
                Merged filename md (case_of (docs st !! md));
                LedgerRecord filename ok]
            ++ (if ok then [] else [CriticalWarning filename])
            ++ [Succeeded filename] |}.

(** The state after a body whose write of the entry raised: the target file
    holds what was written before the entry. *)
Definition write_stopped (st : state) (filename ymd : str) : state :=
  let md := ymd ++ lit ".md" in
  set_docs
    (<[ md := default [] (docs st !! md) ++ preamble (docs st !! md) ]> (docs st))
    (logged st [Processing filename; Converted filename; Recognized filename;
                Failed filename ParseError]).

(** The state after one file, by how far its body gets. *)
Definition after (st : state) (filename : str) : state :=
  match progress_of filename with
  | NoMatch => logged st [Processing filename]
  | Stopped events e =>
      logged st (Processing filename :: events ++ [Failed filename (classify e)])
  | WriteStopped ymd _ => write_stopped st filename ymd
  | Completed ymd stripped => completed st filename ymd stripped
  end.

(** One iteration of the [for]: the body and its handlers. *)
Definition iteration (st : state) (filename : str) : state :=
  match process_item filename st with
  | (Ok _, st') => st'
  | (Raise e, st') => snd (emit (Failed filename (classify e)) st')
  end.

Definition loop (files_to_process : list str) (st : state) : state :=
  fold_left iteration files_to_process st.

(** Lines 141-150. *)
Definition all_note_files_in_dir (entries : list (str * bool)) : list str :=
  map fst
    (List.filter (fun e => snd e && bool_decide (is_Some (re_match_note (fst e))))
                 entries).

Definition files_to_process (entries : list (str * bool))
    (already : gset str) : list str :=
  List.filter (fun f => bool_decide (f ∉ already)) (all_note_files_in_dir entries).

(** Line 303. *)
Definition commit_message (dates : gset str) : str :=
  lit "Update daily notes from Supernote for dates: "
  ++ join (lit ", ") (merge_sort (fun a b => Is_true (str_leb a b)) (elements dates)).

(** Lines 305-322. *)
Definition git_operations (dates : gset str) : list git_event :=
  GitRevParse ::
  match rev_parse git with
  | RevParseFailed => [GitSkipWarning]
  | RevParseOther => []
  | RevParseTrue =>
      GitAdd ::
      if add_ok git then
        GitStatus ::
        if status_dirty git then
          GitCommit (commit_message dates) ::
          (if commit_ok git then [GitPush] else [])
        else [GitNothingToCommit]
      else []
  end.

Definition initial_state (w : world) : state :=
  {| docs := documents w;
     ledger := processed_log_file w;
     already_processed_files := load_processed_files (processed_log_file w);
     processed_dates_for_commit := ∅;
     any_file_processed_successfully_this_run := false;
     newly_processed_count := 0;
     log := [] |}.

Definition nonempty {A} (l : list A) : bool :=
  match l with [] => false | _ => true end.

(** Lines 326-331: the summary, as found, already processed, attempted,
    succeeded, failed. *)
Definition summary_event (found : nat) (st : state) (files : list str) : event :=
  Summary (Z.of_nat found)
    (Z.of_nat (size (already_processed_files st))
     - Z.of_nat (newly_processed_count st))
    (Z.of_nat (length files))
    (Z.of_nat (newly_processed_count st))
    (Z.of_nat (length files) - Z.of_nat (newly_processed_count st)).

(** Lines 333-341. *)
Definition verdict_of (st : state) (files : list str) : verdict :=
  if negb (any_file_processed_successfully_this_run st) && nonempty files
  then FinishedWithErrors
  else if (newly_processed_count st <? length files)%nat && nonempty files
  then FinishedPartial
  else FinishedOk.

Definition exit_of (v : verdict) : N :=
  match v with
  | FinishedWithErrors => 1
  | FinishedPartial => 0
  | FinishedOk => 0
  end.

(** [sys.exit(1)] after the message of a precondition that fails. *)
Definition stop (why : fatal) (st : state) : outcome :=
  {| exit_code := 1; trace := [FatalError why]; final := st |}.

(** An exception that nothing catches: the traceback, and exit status 1. *)
Definition uncaught (e : exn) (st : state) : outcome :=
  {| exit_code := 1; trace := [Uncaught e]; final := st |}.

(** [main()], lines 123-341. *)
Definition main (w : world) : outcome :=
  let st0 := initial_state w in
  match input_dir w with
  | None => stop InputDirMissing st0
  | Some entries =>
  match output_dir_fault w with
  | Some e => uncaught e st0
  | None =>
  match listdir_fault w with
  | Some e => uncaught e st0
  | None =>
      let all := all_note_files_in_dir entries in
      let files := files_to_process entries (already_processed_files st0) in
      if negb (nonempty files) then
        {| exit_code := 0; trace := [NothingToDo]; final := st0 |}
      else
        let st := loop files st0 in
        let dates := processed_dates_for_commit st in
        let vcs :=
          if bool_decide (dates = ∅)
          then (if nonempty files then [NoGit] else [])
          else map Git (git_operations dates) in
        let v := verdict_of st files in
        {| exit_code := exit_of v;
           trace :=
             map Item (log st) ++ vcs
             ++ [summary_event (length all) st files; Finished v];
           final := st |}
  end end end.

(** The script: the search path of lines 52-59, the credential of lines
    61-68, then [main()]. *)
Definition script (w : world) : outcome :=
  match configure_path (tool_path w) (search_path w) with
  | Raise e => uncaught e (initial_state w)
  | Ok _ =>
      match credential_file w with
      | Raise FileNotFoundError => stop CredentialMissing (initial_state w)
      | Raise e => uncaught e (initial_state w)
      | Ok key =>
          if str_eqb (GOOGLE_API_KEY key) []
          then stop CredentialEmpty (initial_state w)
          else main w
      end
  end.

End Program.

(** A run whose start goes through: the search path is configured, the
    credential is read and not empty, the input directory is there and can
    be listed, the output directories can be made. *)
Definition ready (w : world) : Prop :=
  (exists path, configure_path (tool_path w) (search_path w) = Ok path)
  /\ (exists key, credential_file w = Ok key /\ GOOGLE_API_KEY key <> [])
  /\ input_dir w <> None
  /\ output_dir_fault w = None
  /\ listdir_fault w = None.

(** The exception that escapes at the start of a run, if one does: the
    [KeyError] of the search path; else what reading the credential raises,
    a missing file apart; else, with the credential and the input directory
    there, what [os.makedirs] raises, and else what [os.listdir] raises. *)
Definition escapes (w : world) (e : exn) : Prop :=
  configure_path (tool_path w) (search_path w) = Raise e
  \/ ((exists path, configure_path (tool_path w) (search_path w) = Ok path)
      /\ ((credential_file w = Raise e /\ e <> FileNotFoundError)
          \/ ((exists key, credential_file w = Ok key /\ GOOGLE_API_KEY key <> [])
              /\ input_dir w <> None
              /\ (output_dir_fault w = Some e
                  \/ (output_dir_fault w = None /\ listdir_fault w = Some e))))).

(** The same collaborators, with every ledger append succeeding. *)
Definition all_logged (env : str -> item_env) (filename : str) : item_env :=
  {| convert_result := convert_result (env filename);
     pdf_read_result := pdf_read_result (env filename);
     post_result := post_result (env filename);
     merge_io_result := merge_io_result (env filename);
     ledger_append_ok := true |}.

End Run.

(** ** Sample runs *)

Module Sample.

Import Json Run.

Definition response_ok (text : str) : json :=
  JObj [(lit "candidates",
         JArr [JObj [(lit "content",
                      JObj [(lit "parts",
                             JArr [JObj [(lit "text", JStr text)]])])]])].

(** A response whose first part has no text field. *)
Definition response_no_text : json :=
  JObj [(lit "candidates",
         JArr [JObj [(lit "content",
                      JObj [(lit "parts",
                             JArr [JObj [(lit "role", JStr (lit "model"))]])])]])].

Definition note_a : str := lit "20240101_120000.note".
Definition note_b : str := lit "20240102_090000.note".

Definition all_fine (text : str) : item_env :=
  {| convert_result := None; pdf_read_result := None;
     post_result := Ok (response_ok text);
     merge_io_result := None; ledger_append_ok := true |}.

(** The converter fails on [note_a]. *)
Definition env_a_fails (filename : str) : item_env :=
  if str_eqb filename note_a then
    {| convert_result := Some CalledProcessError; pdf_read_result := None;
       post_result := Ok (response_ok (lit "A"));
       merge_io_result := None; ledger_append_ok := true |}
  else all_fine (lit "B").

(** The service answers without text. *)
Definition env_no_text (filename : str) : item_env :=
  {| convert_result := None; pdf_read_result := None;
     post_result := Ok response_no_text;
     merge_io_result := None; ledger_append_ok := true |}.

(** The service cannot be reached. *)
Definition env_no_service (filename : str) : item_env :=
  {| convert_result := None; pdf_read_result := None;
     post_result := Raise RequestException;
     merge_io_result := None; ledger_append_ok := true |}.

(** The ledger cannot be written. *)
Definition env_ledger_fails (filename : str) : item_env :=
  {| convert_result := None; pdf_read_result := None;
     post_result := Ok (response_ok (lit "Hi"));
     merge_io_result := None; ledger_append_ok := false |}.

(** The text of the answer has a lone surrogate. *)
Definition env_surrogate (filename : str) : item_env :=
  all_fine (lit "Hi " ++ [55296]).

Definition git_push_fails : git_env :=
  {| rev_parse := RevParseTrue; add_ok := true; status_dirty := true;
     commit_ok := true; push_ok := false |}.

(** The output directory is no Git work tree. *)
Definition git_no_repository : git_env :=
  {| rev_parse := RevParseFailed; add_ok := false; status_dirty := false;
     commit_ok := false; push_ok := false |}.

Definition two_notes : world :=
  {| tool_path := None;
     search_path := Some (lit "/usr/bin");
     credential_file := Ok (lit "key" ++ [LF]);
     processed_log_file := None;
     input_dir := Some [(note_a, true); (note_b, true)];
     output_dir_fault := None;
     listdir_fault := None;
     documents := ∅ |}.

(** SUPERNOTE_TOOL_PATH is set and PATH is not; the credential is there and
    the input directory is empty. *)
Definition no_search_path : world :=
  {| tool_path := Some (lit "/opt/supernote");
     search_path := None;
     credential_file := Ok (lit "key" ++ [LF]);
     processed_log_file := None;
     input_dir := Some [];
     output_dir_fault := None;
     listdir_fault := None;
     documents := ∅ |}.

End Sample.

(** ** Further definitions: sequences of merges, the next run *)

Module Sequence.

Import Merge Ledger Run.

(** The target file after the merges of several fragments, one after the
    other, as the loop does for the captures of one date. *)
Fixpoint merge_all (existing : option str) (fragments : list str) : option str :=
  match fragments with
  | [] => existing
  | markdown_content :: rest =>
      merge_all (Some (merge existing markdown_content)) rest
  end.

(** A text without whitespace characters. *)
Definition no_space (s : str) : Prop := Forall (fun c => isspace c = false) s.

(** A log that is absent, empty or ends with a newline. *)
Definition well_terminated (log_file : option str) : Prop :=
  match log_file with
  | None => True
  | Some raw => raw = [] \/ last raw = Some LF
  end.

(** What the next run starts from: the ledger and the documents the run has
    left; the run writes nothing else, and the rest is taken to be as it
    was. *)
Definition world_after (w : world) (o : outcome) : world :=
  {| tool_path := tool_path w;
     search_path := search_path w;
     credential_file := credential_file w;
     processed_log_file := ledger (final o);
     input_dir := input_dir w;
     output_dir_fault := output_dir_fault w;
     listdir_fault := listdir_fault w;
     documents := docs (final o) |}.

(** The ledger of a state against the ledger the run started from: the set
    in memory is what the file loads as, the file ends its last line, the set
    is the initial set and the names recorded, and the file has only grown. *)
Definition ledger_inv (already0 : gset str) (log0 : option str) (st : state) : Prop :=
  already_processed_files st = load_processed_files (ledger st)
  /\ well_terminated (ledger st)
  /\ (forall x, x ∈ already_processed_files st
                <-> x ∈ already0 \/ In (LedgerRecord x true) (log st))
  /\ exists more, default [] (ledger st) = default [] log0 ++ more.

(** The documents of a state against the documents the run started from:
    what was there is still there with text added at its end, a document
    that differs is the daily document of a file whose text was recognized,
    a document that differs and is of no touched date is that of a file
    whose write failed, and every touched date has a document with the
    section header. *)
Definition docs_inv (decimal_value : char -> option N) (docs0 : gmap str str)
    (st : state) : Prop :=
  (forall md raw, docs0 !! md = Some raw ->
     exists more, docs st !! md = Some (raw ++ more))
  /\ (forall md, docs st !! md <> docs0 !! md ->
        exists filename,
          In (Recognized filename) (log st)
          /\ target_of decimal_value filename = Some md
          /\ ((exists ymd, ymd ∈ processed_dates_for_commit st
                           /\ md = ymd ++ lit ".md")
              \/ In (Failed filename ParseError) (log st)))
  /\ (forall ymd, ymd ∈ processed_dates_for_commit st ->
        exists text, docs st !! (ymd ++ lit ".md") = Some text
                     /\ contains supernote_header_text (universal_newlines text) = true).

Definition is_completed (p : progress) : bool :=
  match p with Completed _ _ => true | _ => false end.

Definition date_of (p : progress) : option str :=
  match p with Completed ymd _ => Some ymd | _ => None end.

(** The value of a text field that [str.strip] accepts. *)
Definition is_string (v : Json.json) : bool :=
  match v with Json.JStr _ => true | _ => false end.

End Sequence.

(** Sample collaborators for the properties of single stages. *)
Module Sample2.

Import Json Run Sample.

(** The service answers with a number in the text field. *)
Definition response_number : json :=
  JObj [(lit "candidates",
         JArr [JObj [(lit "content",
                      JObj [(lit "parts",
                             JArr [JObj [(lit "text", JNum 5)]])])]])].

Definition env_number (filename : str) : item_env :=
  {| convert_result := None; pdf_read_result := None;
     post_result := Ok response_number;
     merge_io_result := None; ledger_append_ok := true |}.

Definition env_fine (filename : str) : item_env := all_fine (lit "Hi").

(** A table with the ASCII digits and the Arabic-Indic digits, U+0660 to
    U+0669. *)
Definition two_scripts (c : char) : option N :=
  if (1632 <=? c) && (c <=? 1641) then Some (c - 1632) else ascii_digit c.

(** A capture named after the thirtieth of February. *)
Definition note_feb30 : str := lit "20240230_120000.note".

Definition one_note : world :=
  {| tool_path := None;
     search_path := Some (lit "/usr/bin");
     credential_file := Ok (lit "key" ++ [LF]);
     processed_log_file := Some (lit "20231231_235959.note" ++ [LF]);
     input_dir := Some [(note_a, true); (lit "20231231_235959.note", true);
                        (lit "notes.txt", true)];
     output_dir_fault := None;
     listdir_fault := None;
     documents := ∅ |}.

End Sample2.

(** * Properties *)

(** * Facts about Python strings *)

Module PyStrFacts.

Lemma startswith_spec (p s : str) :
  startswith p s = true <-> exists t, s = p ++ t.
Proof.
  revert s. induction p as [|x p IH]; intros s; simpl.
  - split; [intros _; by exists s | done].
  - destruct s as [|y s].
    + split; [done | intros [t Ht]; discriminate].
    + rewrite andb_true_iff, N.eqb_eq, IH. split.
      * intros [-> [t ->]]. by exists t.
      * intros [t Ht]. injection Ht as -> ->. split; [done | by exists t].
Qed.

Lemma startswith_app (p s : str) : startswith p (p ++ s) = true.
Proof. apply startswith_spec. by exists s. Qed.

(** A pattern that avoids [c] cannot reach across an occurrence of [c]. *)
Lemma startswith_barrier (p a b : str) (c : char) :
  p <> [] -> ~ In c p ->
  startswith p (a ++ c :: b) = startswith p a.
Proof.
  revert a. induction p as [|x p IH]; intros a Hne Hc; [done|].
  destruct a as [|y a]; simpl.
  - destruct (N.eqb_spec x c) as [->|]; [|done].
    exfalso. apply Hc. by left.
  - destruct (N.eqb_spec x y) as [->|]; [|done]. simpl.
    destruct p as [|x' p]; [done|].
    apply IH; [done|]. intros H. apply Hc. by right.
Qed.

Lemma occurrences_nil (p : str) : p <> [] -> occurrences p [] = 0%nat.
Proof. by destruct p. Qed.

Lemma occurrences_barrier (p a b : str) (c : char) :
  p <> [] -> ~ In c p ->
  occurrences p (a ++ c :: b) = (occurrences p a + occurrences p b)%nat.
Proof.
  intros Hne Hc. induction a as [|y a IH].
  - change ([] ++ c :: b) with ([] ++ c :: b).
    cbn [occurrences app].
    replace (startswith p (c :: b)) with (startswith p ([] ++ c :: b)) by done.
    rewrite startswith_barrier by done.
    destruct p; [done|]. simpl. done.
  - cbn [occurrences app].
    replace (startswith p (y :: a ++ c :: b))
      with (startswith p ((y :: a) ++ c :: b)) by done.
    rewrite startswith_barrier by done. rewrite IH. lia.
Qed.

Lemma occurrences_snoc (p a : str) (c : char) :
  p <> [] -> ~ In c p -> occurrences p (a ++ [c]) = occurrences p a.
Proof.
  intros Hne Hc. rewrite occurrences_barrier by done.
  rewrite (occurrences_nil p Hne). lia.
Qed.

Lemma occurrences_cons_barrier (p b : str) (c : char) :
  p <> [] -> ~ In c p -> occurrences p (c :: b) = occurrences p b.
Proof.
  intros Hne Hc. change (c :: b) with ([] ++ c :: b).
  rewrite occurrences_barrier by done.
  by rewrite (occurrences_nil p Hne).
Qed.

Lemma occurrences_line (p a b : str) (c : char) :
  p <> [] -> ~ In c p ->
  occurrences p (a ++ [c] ++ b) = (occurrences p a + occurrences p b)%nat.
Proof. apply occurrences_barrier. Qed.

Lemma occurrences_after (p b : str) (c : char) :
  p <> [] -> ~ In c p -> occurrences p ([c] ++ b) = occurrences p b.
Proof. apply occurrences_cons_barrier. Qed.

Lemma contains_occurrences (p s : str) :
  contains p s = negb (occurrences p s =? 0)%nat.
Proof.
  induction s as [|y s IH]; simpl.
  - by destruct (startswith p []).
  - rewrite IH. destruct (startswith p (y :: s)); simpl; [done|].
    done.
Qed.

Lemma contains_false (p s : str) :
  contains p s = false <-> occurrences p s = 0%nat.
Proof.
  rewrite contains_occurrences, negb_false_iff. apply Nat.eqb_eq.
Qed.

Lemma contains_true (p s : str) :
  contains p s = true <-> (0 < occurrences p s)%nat.
Proof.
  rewrite contains_occurrences, negb_true_iff, Nat.eqb_neq. lia.
Qed.

Lemma contains_app (p a b : str) : contains p (a ++ p ++ b) = true.
Proof.
  induction a as [|y a IH].
  - assert (H : forall s : str, startswith p s = true -> contains p s = true).
    { intros s Hs. destruct s; simpl; by rewrite Hs. }
    rewrite app_nil_l. apply H, startswith_app.
  - simpl. rewrite IH. apply orb_true_r.
Qed.

Lemma str_eqb_nil (s : str) : str_eqb s [] = true <-> s = [].
Proof. by destruct s. Qed.

(** [endswith] for a one-character suffix. *)
Lemma endswith_single (c : char) (s : str) :
  endswith [c] s = true <-> last s = Some c.
Proof.
  unfold endswith. destruct s as [|y s _] using rev_ind; [done|].
  rewrite rev_app_distr, last_snoc. simpl.
  rewrite andb_true_r, N.eqb_eq. split; congruence.
Qed.

Lemma endswith_single_false (c : char) (s : str) :
  endswith [c] s = false <-> last s <> Some c.
Proof.
  rewrite <- endswith_single. by destruct (endswith [c] s).
Qed.

(** [lstrip_by] removes a prefix and leaves no stripped character in front. *)
Lemma lstrip_by_head (p : char -> bool) (s : str) :
  match lstrip_by p s with [] => True | c :: _ => p c = false end.
Proof.
  induction s as [|y s IH]; simpl; [done|].
  destruct (p y) eqn:E; [done | by rewrite E].
Qed.

Lemma lstrip_by_id (p : char -> bool) (c : char) (s : str) :
  p c = false -> lstrip_by p (c :: s) = c :: s.
Proof. intros H. simpl. by rewrite H. Qed.

Lemma lstrip_by_suffix (p : char -> bool) (s : str) :
  exists dropped, s = dropped ++ lstrip_by p s /\ Forall (fun c => (p c) = true) dropped.
Proof.
  induction s as [|y s (d & Hd & Hall)]; simpl.
  - by exists [].
  - destruct (p y) eqn:E.
    + exists (y :: d). split; [simpl; congruence | by constructor].
    + by exists [].
Qed.

Lemma strip_head (s : str) :
  match strip s with [] => True | c :: _ => isspace c = false end.
Proof. apply lstrip_by_head. Qed.


(** Induction two characters at a time, the shape of [universal_newlines]. *)
Lemma str_ind2 (P : str -> Prop) :
  P [] -> (forall x, P [x]) ->
  (forall x y l, P l -> P (y :: l) -> P (x :: y :: l)) ->
  forall l, P l.
Proof.
  intros H0 H1 H2 l.
  assert (H : P l /\ forall x, P (x :: l)); [|tauto].
  induction l as [|y l [IHa IHb]]; split; auto.
Qed.

Lemma universal_newlines_cons (c : char) (t : str) :
  c <> CR -> universal_newlines (c :: t) = c :: universal_newlines t.
Proof. intros H. simpl. by destruct (N.eqb_spec c CR). Qed.

Lemma universal_newlines_crlf (t : str) :
  universal_newlines (CR :: LF :: t) = LF :: universal_newlines t.
Proof. done. Qed.

Lemma universal_newlines_cr (d : char) (t : str) :
  d <> LF -> universal_newlines (CR :: d :: t) = LF :: universal_newlines (d :: t).
Proof.
  intros H. cbn [universal_newlines]. rewrite N.eqb_refl.
  by destruct (N.eqb_spec d LF).
Qed.

Lemma universal_newlines_nil (s : str) : universal_newlines s = [] <-> s = [].
Proof.
  destruct s as [|c t]; [done|]. simpl. by destruct (c =? CR).
Qed.

Lemma startswith_universal_newlines (p s : str) :
  ~ In CR p -> ~ In LF p ->
  startswith p (universal_newlines s) = startswith p s.
Proof.
  revert s. induction p as [|x p IH]; intros s Hcr Hlf; [done|].
  assert (x <> CR) by (intros ->; apply Hcr; by left).
  assert (x <> LF) by (intros ->; apply Hlf; by left).
  destruct s as [|c t]; [done|].
  destruct (N.eq_dec c CR) as [->|Hc].
  - transitivity false.
    + simpl. by destruct (N.eqb_spec x LF).
    + simpl. by destruct (N.eqb_spec x CR).
  - rewrite universal_newlines_cons by done. simpl.
    rewrite IH; [done | |]; intros Hin; [apply Hcr | apply Hlf]; by right.
Qed.

Lemma occurrences_universal_newlines (p s : str) :
  p <> [] -> ~ In CR p -> ~ In LF p ->
  occurrences p (universal_newlines s) = occurrences p s.
Proof.
  intros Hne Hcr Hlf. induction s as [|x|x y l IH1 IH2] using str_ind2.
  - done.
  - destruct (N.eq_dec x CR) as [->|Hx]; [|by rewrite universal_newlines_cons].
    change (universal_newlines [CR]) with [LF].
    by rewrite !occurrences_cons_barrier.
  - destruct (N.eq_dec x CR) as [->|Hx].
    + destruct (N.eq_dec y LF) as [->|Hy].
      * rewrite universal_newlines_crlf, !occurrences_cons_barrier by done.
        exact IH1.
      * rewrite universal_newlines_cr, !(occurrences_cons_barrier p (_ :: _)) by done.
        rewrite (occurrences_cons_barrier p _ LF) by done. exact IH2.
    + pose proof (startswith_universal_newlines p (x :: y :: l) Hcr Hlf) as Hs.
      rewrite universal_newlines_cons in Hs |- * by done.
      cbn [occurrences]. rewrite Hs, IH2. done.
Qed.

(** The last character read is the translation of the last character stored. *)
Lemma last_universal_newlines (s : str) :
  last (universal_newlines s) = newline_of <$> last s.
Proof.
  induction s as [|x|x y l IH1 IH2] using str_ind2.
  - done.
  - unfold newline_of. simpl. by destruct (x =? CR).
  - rewrite last_cons_cons.
    destruct (N.eq_dec x CR) as [->|Hx].
    + destruct (N.eq_dec y LF) as [->|Hy].
      * rewrite universal_newlines_crlf, !last_cons, IH1.
        by destruct (last l).
      * rewrite universal_newlines_cr, last_cons, IH2 by done.
        rewrite last_cons. by destruct (last l).
    + rewrite universal_newlines_cons, last_cons, IH2 by done.
      rewrite last_cons. by destruct (last l).
Qed.

Lemma endswith_universal_newlines (s : str) :
  endswith [LF] (universal_newlines s) = true
  <-> last s = Some LF \/ last s = Some CR.
Proof.
  rewrite endswith_single, last_universal_newlines.
  destruct (last s) as [c|]; simpl; [|by intuition].
  unfold newline_of. destruct (N.eqb_spec c CR) as [->|Hc]; [by intuition|].
  split; [intros [= ->]; by left | intros [E|E]; by simplify_eq].
Qed.


(** [p in s]: [s] is [p] between two texts. *)
Lemma contains_spec (p s : str) :
  contains p s = true <-> exists a b, s = a ++ p ++ b.
Proof.
  split.
  - induction s as [|y s IH]; simpl.
    + rewrite orb_false_r. intros H. apply startswith_spec in H as [t ->].
      by exists [], t.
    + intros H. apply orb_true_iff in H as [H|H].
      * apply startswith_spec in H as [t ->]. by exists [], t.
      * destruct (IH H) as (a & b & ->). by exists (y :: a), b.
  - intros (a & b & ->). apply contains_app.
Qed.

Lemma join_cons (sep x y : str) (l : list str) :
  join sep (x :: y :: l) = x ++ sep ++ join sep (y :: l).
Proof. done. Qed.

Lemma contains_join (sep d : str) (l : list str) :
  In d l -> contains d (join sep l) = true.
Proof.
  induction l as [|x l IH]; [done|]. intros Hin. apply contains_spec.
  destruct l as [|y l].
  - destruct Hin as [->|[]]. exists [], []. by rewrite app_nil_r.
  - rewrite join_cons. destruct Hin as [->|Hin].
    + by exists [], (sep ++ join sep (y :: l)).
    + apply IH, contains_spec in Hin as (a & b & ->).
      exists (x ++ sep ++ a), b. by rewrite <- !app_assoc.
Qed.

Lemma contains_app_r (p a s : str) :
  contains p s = true -> contains p (a ++ s) = true.
Proof.
  rewrite !contains_spec. intros (a' & b & ->).
  exists (a ++ a'), b. by rewrite <- app_assoc.
Qed.

Lemma encodable_app (a b : str) :
  encodable (a ++ b) = encodable a && encodable b.
Proof. apply forallb_app. Qed.

End PyStrFacts.

(** * The merge *)

Module MergeFacts.

Import PyStrFacts Merge.

Lemma header_nonempty : supernote_header_text <> [].
Proof. discriminate. Qed.

Lemma header_no_lf : ~ In LF supernote_header_text.
Proof. vm_compute. intuition discriminate. Qed.

Lemma header_no_cr : ~ In CR supernote_header_text.
Proof. vm_compute. intuition discriminate. Qed.

Lemma header_occurs_once_in_itself :
  occurrences supernote_header_text supernote_header_text = 1%nat.
Proof. reflexivity. Qed.

Create HintDb header.
#[local] Hint Resolve header_nonempty header_no_lf header_no_cr : header.

Ltac hdr := auto with header.

(** Leading newlines carry no header. *)
Lemma occurrences_newlines (dropped t : str) :
  Forall (fun c => (LF =? c) = true) dropped ->
  occurrences supernote_header_text (dropped ++ t)
  = occurrences supernote_header_text t.
Proof.
  induction 1 as [|c d Hc _ IH]; [done|].
  apply N.eqb_eq in Hc as <-. simpl app.
  rewrite occurrences_cons_barrier by hdr. exact IH.
Qed.

Lemma entry_unfold (s : str) : entry s = lstrip_nl (s ++ [LF]).
Proof. done. Qed.

Lemma occurrences_entry (s : str) :
  occurrences supernote_header_text (entry s)
  = occurrences supernote_header_text s.
Proof.
  rewrite entry_unfold. unfold lstrip_nl.
  destruct (lstrip_by_suffix (N.eqb LF) (s ++ [LF])) as (d & Hd & Hall).
  rewrite <- (occurrences_newlines d) by done. rewrite <- Hd.
  apply occurrences_snoc; hdr.
Qed.

(** What is written for a fragment is empty or ends the line. *)
Lemma entry_last (s : str) : entry s = [] \/ last (entry s) = Some LF.
Proof.
  rewrite entry_unfold. unfold lstrip_nl.
  destruct (lstrip_by_suffix (N.eqb LF) (s ++ [LF])) as (d & Hd & _).
  destruct (lstrip_by (N.eqb LF) (s ++ [LF])) as [|c r] eqn:E; [by left|right].
  apply (f_equal last) in Hd. rewrite last_snoc, last_app in Hd.
  destruct (last (c :: r)) eqn:El; [congruence|].
  by apply last_None in El.
Qed.

(** A trimmed fragment is written as it is, followed by one newline. *)
Lemma entry_strip (md : str) :
  entry (strip md) = match strip md with [] => [] | _ => strip md ++ [LF] end.
Proof.
  pose proof (strip_head md) as H. rewrite entry_unfold.
  destruct (strip md) as [|c r]; [done|].
  unfold lstrip_nl. simpl app. apply lstrip_by_id.
  apply N.eqb_neq. intros <-. discriminate H.
Qed.

(** Lines 257-259 in closed form. *)
Lemma separator_closed_form (content : str) :
  separator content =
  match content with
  | [] => []
  | _ => if endswith [LF] content then [LF] else [LF; LF]
  end.
Proof.
  unfold separator. destruct content as [|c t]; [done|].
  cbn [str_eqb negb andb].
  destruct (endswith [LF] (c :: t)), (endswith [LF; LF] (c :: t)); done.
Qed.

(** The header count of the merged file: what was there, the header line when
    one is written, and what the fragment brings. *)
Lemma occurrences_merged (existing : option str) (stripped : str) :
  occurrences supernote_header_text (merged existing stripped)
  = (occurrences supernote_header_text (default [] existing)
     + header_added (case_of existing)
     + occurrences supernote_header_text stripped)%nat.
Proof.
  pose proof (occurrences_entry stripped) as He.
  assert (Hh : forall t : str,
    occurrences supernote_header_text (supernote_header_text ++ [LF] ++ t)
    = S (occurrences supernote_header_text t)).
  { intros t.
    rewrite occurrences_line, header_occurs_once_in_itself by hdr. done. }
  unfold merged, written, case_of. destruct existing as [raw|]; simpl default.
  - destruct (contains supernote_header_text (universal_newlines raw)) eqn:Hc;
      cbn [negb header_added].
    + destruct (str_eqb (universal_newlines raw) []) eqn:Hnil.
      { apply str_eqb_nil, universal_newlines_nil in Hnil as ->.
        simpl. rewrite He. done. }
      destruct (endswith [LF] (universal_newlines raw)) eqn:Hnl; cbn [negb andb].
      * apply endswith_universal_newlines in Hnl.
        destruct raw as [|c raw' _] using rev_ind; [by destruct Hnl|].
        rewrite last_snoc in Hnl.
        assert (Hb : ~ In c supernote_header_text).
        { destruct Hnl as [[= ->]|[= ->]]; hdr. }
        rewrite app_nil_l, <- app_assoc.
        rewrite occurrences_line, occurrences_snoc, He by hdr. lia.
      * rewrite occurrences_line, He by hdr. lia.
    + rewrite separator_closed_form.
      destruct (universal_newlines raw) as [|c t] eqn:Hu; cbn beta iota.
      { apply universal_newlines_nil in Hu as ->.
        rewrite !app_nil_l, Hh, He. done. }
      destruct (endswith [LF] (c :: t)).
      * rewrite occurrences_line, Hh, He by hdr. lia.
      * change [LF; LF] with ([LF] ++ [LF]). rewrite <- (app_assoc [LF]).
        rewrite occurrences_line, occurrences_after, Hh, He by hdr. lia.
  - rewrite app_nil_l, Hh, He. done.
Qed.

(** Which branch runs, from the header count of the stored file. *)
Lemma case_of_some (raw : str) :
  case_of (Some raw) =
  if (occurrences supernote_header_text raw =? 0)%nat then HeaderAdded else Appended.
Proof.
  unfold case_of.
  rewrite contains_occurrences, occurrences_universal_newlines by hdr.
  by rewrite negb_involutive.
Qed.

(** After a merge the file, as read back, ends with a newline. *)
Lemma merged_ends_line (existing : option str) (stripped : str) :
  endswith [LF] (universal_newlines (merged existing stripped)) = true.
Proof.
  apply endswith_universal_newlines.
  assert (Ht : forall a : str, last (a ++ [LF] ++ entry stripped) = Some LF).
  { intros a. rewrite app_assoc.
    destruct (entry_last stripped) as [->|Hl].
    - by rewrite app_nil_r, last_snoc.
    - by rewrite last_app, Hl. }
  unfold merged, written. destruct existing as [raw|]; simpl default.
  - destruct (contains supernote_header_text (universal_newlines raw)) eqn:Hc;
      cbn [negb].
    + destruct (entry_last stripped) as [E|Hl].
      2: { left. by rewrite !last_app, Hl. }
      rewrite E, app_nil_r.
      destruct (str_eqb (universal_newlines raw) []) eqn:Hnil.
      { apply str_eqb_nil in Hnil. rewrite Hnil in Hc. discriminate Hc. }
      destruct (endswith [LF] (universal_newlines raw)) eqn:Hnl; cbn [negb andb].
      * rewrite app_nil_r. by apply endswith_universal_newlines.
      * left. by rewrite last_snoc.
    + left. rewrite !app_assoc, <- (app_assoc _ [LF]). apply Ht.
  - left. rewrite app_nil_l. apply Ht.
Qed.


(** The three cases on the documents of the specification's examples. *)
Example case1_hello :
  merge None (lit "Hello") = supernote_header_text ++ [LF] ++ lit "Hello" ++ [LF].
Proof. reflexivity. Qed.

Example case2_title :
  merge (Some (lit "# Title" ++ [LF])) (lit "Hello")
  = lit "# Title" ++ [LF] ++ [LF] ++ supernote_header_text ++ [LF]
    ++ lit "Hello" ++ [LF].
Proof. reflexivity. Qed.

Example case3_no_final_newline :
  merge (Some (supernote_header_text ++ [LF] ++ lit "one")) (lit "two")
  = supernote_header_text ++ [LF] ++ lit "one" ++ [LF] ++ lit "two" ++ [LF].
Proof. reflexivity. Qed.

(** C1 (as stated, refuted): the existing content ["# Title\n\n"] has no
    header and ends with two newlines; the code writes one newline before the
    header line, the claim says two. *)
Lemma separator_after_blank_line :
  let content := lit "# Title" ++ [LF; LF] in
  case_of (Some content) = HeaderAdded
  /\ endswith [LF; LF] content = true
  /\ separator (universal_newlines content) = [LF]
  /\ separator (universal_newlines content)
     <> spec_separator (universal_newlines content).
Proof. repeat split; try reflexivity. discriminate. Qed.

(** C1 (amended): when the existing document has no section header, the
    merge appends the separator, the header line and the fragment; the
    separator is empty for empty content, one newline when the content ends
    with a newline (one or several), two newlines otherwise. *)
Theorem separator_before_header (raw stripped : str) :
  case_of (Some raw) = HeaderAdded ->
  merged (Some raw) stripped
  = raw ++ separator (universal_newlines raw)
        ++ supernote_header_text ++ [LF] ++ entry stripped
  /\ separator (universal_newlines raw)
     = match universal_newlines raw with
       | [] => []
       | _ => if endswith [LF] (universal_newlines raw) then [LF] else [LF; LF]
       end.
Proof.
  intros Hcase. split; [|apply separator_closed_form].
  unfold merged, written, case_of in *. simpl default.
  destruct (contains supernote_header_text (universal_newlines raw));
    [discriminate Hcase | done].
Qed.

Lemma separator_before_header_witness :
  case_of (Some (lit "# Title")) = HeaderAdded
  /\ merged (Some (lit "# Title")) (lit "Hello")
     = lit "# Title" ++ separator (universal_newlines (lit "# Title"))
       ++ supernote_header_text ++ [LF] ++ entry (lit "Hello")
  /\ separator (universal_newlines (lit "# Title")) = [LF; LF].
Proof.
  split; [reflexivity|].
  exact (separator_before_header (lit "# Title") (lit "Hello") eq_refl).
Defined.

(** After a merge the file, as read back, has the header. *)
Lemma merged_has_header (existing : option str) (stripped : str) :
  contains supernote_header_text (universal_newlines (merged existing stripped))
  = true.
Proof.
  apply contains_true.
  rewrite occurrences_universal_newlines;
    [|apply header_nonempty|apply header_no_cr|apply header_no_lf].
  rewrite occurrences_merged. destruct existing as [raw|]; [|simpl; lia].
  rewrite case_of_some. simpl default.
  destruct (Nat.eqb_spec (occurrences supernote_header_text raw) 0);
    cbn [header_added]; lia.
Qed.

(** A merge into a file that a merge has left is an append of the entry. *)
Lemma merge_after_merge (existing : option str) (a b : str) :
  merge (Some (merge existing a)) b = merge existing a ++ entry (strip b).
Proof.
  unfold merge at 1. unfold merged, written. simpl default.
  unfold merge. by rewrite merged_has_header, merged_ends_line, andb_false_r.
Qed.

(** What is written is what comes before the entry, and the entry. *)
Lemma written_preamble (existing : option str) (stripped : str) :
  written existing stripped = preamble existing ++ entry stripped.
Proof.
  unfold written, preamble. destruct existing as [raw|]; [|by rewrite <- app_assoc].
  cbv zeta. destruct (negb (contains _ _)); [by rewrite <- !app_assoc|done].
Qed.

(** The entry can be encoded when the fragment can. *)
Lemma encodable_entry (s : str) : encodable (entry s) = encodable s.
Proof.
  rewrite entry_unfold. unfold lstrip_nl.
  destruct (lstrip_by_suffix (N.eqb LF) (s ++ [LF])) as (d & Hd & Hall).
  assert (Hd' : encodable d = true).
  { apply forallb_forall. intros c Hc. rewrite Forall_forall in Hall.
    by apply list_elem_of_In, Hall, N.eqb_eq in Hc as <-. }
  apply (f_equal encodable) in Hd. rewrite !encodable_app, Hd' in Hd.
  cbn [andb] in Hd. rewrite <- Hd. simpl. by rewrite andb_true_r.
Qed.

(** What is written before the entry can always be encoded. *)
Lemma encodable_preamble (existing : option str) :
  encodable (preamble existing) = true.
Proof.
  unfold preamble. destruct existing as [raw|]; [|done]. cbv zeta.
  destruct (negb (contains _ _)).
  - rewrite separator_closed_form.
    destruct (universal_newlines raw); [done|]. by destruct (endswith _ _).
  - by destruct (_ && _).
Qed.

(** The header count after a merge of a fragment that brings none, into a
    document that holds at most one. *)
Lemma merge_header_count (existing : option str) (markdown_content : str) :
  contains supernote_header_text (strip markdown_content) = false ->
  (occurrences supernote_header_text (default [] existing) <= 1)%nat ->
  occurrences supernote_header_text (merge existing markdown_content) = 1%nat.
Proof.
  intros Hfrag Hold. apply contains_false in Hfrag.
  unfold merge. rewrite occurrences_merged, Hfrag.
  destruct existing as [raw|]; [|done].
  rewrite case_of_some. simpl default in *.
  destruct (occurrences supernote_header_text raw) as [|[|n]]; simpl; lia.
Qed.

(** C2 (as stated, refuted): a fragment that is the header text itself,
    merged into an absent document, leaves the header twice in the file. *)
Lemma header_twice_from_fragment :
  occurrences supernote_header_text (merge None supernote_header_text) = 2%nat
  /\ occurrences supernote_header_text (merge None supernote_header_text) <> 1%nat.
Proof. split; [reflexivity | discriminate]. Qed.

(** C2 (amended): for every stored document and every fragment, in all three
    cases, the merged file is the stored text, then what the branch writes
    before the entry, then the trimmed fragment followed by one newline
    (nothing for a fragment that trims to nothing): the trimmed fragment ends
    the file.  The merged file holds the header as often as the stored text,
    once more when the branch writes the header line, and as often again as
    the trimmed fragment holds it; so exactly once when the trimmed fragment
    does not contain the header and the stored document holds it at most
    once. *)
Theorem merge_postcondition (existing : option str) (markdown_content : str) :
  merge existing markdown_content
  = default [] existing ++ preamble existing ++ strip markdown_content
    ++ match strip markdown_content with [] => [] | _ => [LF] end
  /\ occurrences supernote_header_text (merge existing markdown_content)
     = (occurrences supernote_header_text (default [] existing)
        + header_added (case_of existing)
        + occurrences supernote_header_text (strip markdown_content))%nat
  /\ (contains supernote_header_text (strip markdown_content) = false ->
      (occurrences supernote_header_text (default [] existing) <= 1)%nat ->
      occurrences supernote_header_text (merge existing markdown_content) = 1%nat).
Proof.
  split; [|split; [apply occurrences_merged | apply merge_header_count]].
  unfold merge, merged. rewrite written_preamble, entry_strip.
  by destruct (strip markdown_content).
Qed.

Lemma merge_postcondition_witness :
  contains supernote_header_text (strip (lit " Hello ")) = false
  /\ (occurrences supernote_header_text
        (default [] (Some (lit "# Title" ++ [LF]))) <= 1)%nat
  /\ occurrences supernote_header_text
       (merge (Some (lit "# Title" ++ [LF])) (lit " Hello ")) = 1%nat.
Proof.
  split; [reflexivity|]. split; [vm_compute; lia|].
  apply (merge_postcondition (Some (lit "# Title" ++ [LF])) (lit " Hello "));
    [reflexivity | vm_compute; lia].
Defined.




End MergeFacts.

(** * The ledger *)

Module LedgerFacts.

Import Ledger.

Lemma lines_from_concat (cur s : str) :
  concat (lines_from cur s) = rev cur ++ s.
Proof.
  revert cur. induction s as [|c t IH]; intros cur; simpl.
  - destruct cur; simpl; by rewrite ?app_nil_r.
  - destruct (c =? LF); simpl; rewrite IH; simpl; by rewrite <- ?app_assoc.
Qed.

(** The lines of a text, put end to end, are the text. *)
Lemma file_lines_concat (s : str) : concat (file_lines s) = s.
Proof. apply lines_from_concat. Qed.

Lemma elem_of_fold_add (ls : list str) (acc : gset str) (x : str) :
  x ∈ fold_left (fun processed line => processed ∪ {[ strip line ]}) ls acc
  <-> x ∈ acc \/ exists line, In line ls /\ x = strip line.
Proof.
  revert acc. induction ls as [|l ls IH]; intros acc; simpl.
  - split; [by left | intros [H|(l & [] & _)]; done].
  - rewrite IH, elem_of_union, elem_of_singleton. split.
    + intros [[H| ->]|(l' & Hl & ->)]; eauto.
    + intros [H|(l' & [<-|Hl] & ->)]; eauto.
Qed.

(** C7 (as stated, refuted): the log ["a\n\nb\n"] has a blank second line;
    the loaded set holds the empty name, which is no trimmed non-empty line. *)
Lemma blank_line_is_loaded :
  let log := lit "a" ++ [LF] ++ [LF] ++ lit "b" ++ [LF] in
  [] ∈ load_processed_files (Some log)
  /\ ([] ∉ spec_load (Some log))
  /\ load_processed_files (Some log) <> spec_load (Some log).
Proof.
  intros log.
  assert (Hin : [] ∈ load_processed_files (Some log)).
  { apply elem_of_fold_add. right. exists [LF]. split; [|reflexivity].
    right. by left. }
  assert (Hout : [] ∉ spec_load (Some log)).
  { unfold spec_load. rewrite elem_of_list_to_set, list_elem_of_filter. tauto. }
  split; [done|]. split; [done|]. intros E. by rewrite E in Hin.
Qed.

(** C7 (amended): loading the ledger returns the set of the trimmed texts of
    all the lines of the file, the empty name for a blank line included; a
    missing file yields the empty set. *)
Theorem load_processed_files_lines :
  load_processed_files None = ∅
  /\ (forall (raw x : str),
        x ∈ load_processed_files (Some raw)
        <-> exists line,
              In line (file_lines (universal_newlines raw)) /\ x = strip line)
  /\ (forall raw : str,
        In [LF] (file_lines (universal_newlines raw)) ->
        [] ∈ load_processed_files (Some raw)).
Proof.
  assert (H : forall (raw x : str),
            x ∈ load_processed_files (Some raw)
            <-> exists line,
                  In line (file_lines (universal_newlines raw)) /\ x = strip line).
  { intros raw x. unfold load_processed_files.
    rewrite elem_of_fold_add. split; [intros [H|H] | by right]; [|done].
    by apply not_elem_of_empty in H. }
  split; [done|]. split; [done|].
  intros raw Hblank. apply H. by exists [LF].
Qed.

End LedgerFacts.

(** * The batch run *)

Module RunFacts.

Import Json Merge Ledger Config Run PyStrFacts MergeFacts Sequence.

(** *** The scanner *)

Section Scanner.

Variable decimal_value : char -> option N.

Local Abbreviation isdecimal := (Run.isdecimal decimal_value).
Local Abbreviation re_match_note := (Run.re_match_note decimal_value).
Local Abbreviation fullmatch_note := (Run.fullmatch_note decimal_value).
Local Abbreviation all_note_files_in_dir := (Run.all_note_files_in_dir decimal_value).
Local Abbreviation files_to_process := (Run.files_to_process decimal_value).

(** The pattern is matched at the start of the name; what follows ".note" is
    not looked at. *)
Lemma re_match_note_prefix (name d t : str) :
  re_match_note name = Some (d, t)
  <-> length d = 8%nat /\ length t = 6%nat
      /\ forallb isdecimal d = true /\ forallb isdecimal t = true
      /\ exists rest, name = d ++ lit "_" ++ t ++ lit ".note" ++ rest.
Proof.
  unfold Run.re_match_note. split.
  - destruct (_ && _) eqn:E; [|done]. intros [= <- <-].
    repeat (apply andb_true_iff in E as [E ?]).
    apply Nat.eqb_eq in E. apply Nat.eqb_eq in H1.
    apply startswith_spec in H2 as [r1 Hr1].
    rewrite Hr1 in *. cbn [lit app drop] in *.
    apply startswith_spec in H as [rest Hrest].
    repeat (split; [done|]). exists rest.
    rewrite <- (take_drop 8 name) at 1. rewrite Hr1. f_equal.
    cbn [lit app]. f_equal. rewrite <- (take_drop 6 r1) at 1. by rewrite Hrest.
  - intros (Hd & Ht & Hdd & Htd & rest & ->).
    replace (take 8 (d ++ lit "_" ++ t ++ lit ".note" ++ rest)) with d
      by (by rewrite <- Hd, take_app_length).
    replace (drop 8 (d ++ lit "_" ++ t ++ lit ".note" ++ rest))
      with (lit "_" ++ t ++ lit ".note" ++ rest)
      by (by rewrite <- Hd, drop_app_length).
    change (lit "_") with [95]. cbn [app drop]. rewrite !drop_0.
    replace (take 6 (t ++ lit ".note" ++ rest)) with t
      by (by rewrite <- Ht, take_app_length).
    replace (drop 6 (t ++ lit ".note" ++ rest)) with (lit ".note" ++ rest)
      by (by rewrite <- Ht, drop_app_length).
    by rewrite Hd, Ht, Hdd, Htd, startswith_app.
Qed.

(** The work list: the regular files whose name starts with the pattern and
    is not in the ledger. *)
Lemma files_to_process_spec (entries : list (str * bool)) (already : gset str)
    (name : str) :
  In name (files_to_process entries already)
  <-> In (name, true) entries /\ is_Some (re_match_note name) /\ name ∉ already.
Proof.
  unfold Run.files_to_process, Run.all_note_files_in_dir.
  rewrite filter_In, in_map_iff, bool_decide_eq_true. split.
  - intros [([n b] & <- & Hin) Hout]. apply filter_In in Hin as [Hin Hc].
    simpl in *. apply andb_true_iff in Hc as [-> Hm].
    by apply bool_decide_eq_true in Hm.
  - intros (Hin & Hm & Hout). split; [|done]. exists (name, true).
    split; [done|]. apply filter_In. split; [done|]. simpl.
    by apply bool_decide_eq_true.
Qed.

(** C3 (the code at the failing input): the regular file
    "20240101_120000.note.bak" does not match the anchored pattern, and the
    scanner puts it in the work list. *)
Theorem scanner_takes_note_bak :
  (forall c, 48 <= c <= 57 -> isdecimal c = true) ->
  fullmatch_note (lit "20240101_120000.note.bak") = false
  /\ files_to_process [(lit "20240101_120000.note.bak", true)] ∅
     = [lit "20240101_120000.note.bak"].
Proof.
  intros Hdigits.
  assert (Hall : forall s : str,
            Forall (fun c => 48 <= c <= 57) s -> forallb isdecimal s = true).
  { intros s Hs. apply forallb_forall. intros c Hc.
    apply Hdigits. rewrite Forall_forall in Hs. apply Hs.
    by apply list_elem_of_In. }
  assert (Hm : re_match_note (lit "20240101_120000.note.bak")
               = Some (lit "20240101", lit "120000")).
  { apply re_match_note_prefix. split; [done|]. split; [done|].
    split; [|split; [|by exists (lit ".bak")]];
      apply Hall; repeat constructor; cbn; lia. }
  split.
  - unfold Run.fullmatch_note. by rewrite Hm.
  - unfold Run.files_to_process, Run.all_note_files_in_dir.
    cbn [List.filter fst snd andb]. rewrite Hm.
    rewrite bool_decide_eq_true_2 by done. cbn [map fst List.filter].
    by rewrite bool_decide_eq_true_2 by set_solver.
Qed.

End Scanner.

Section Program.

Variable decimal_value : char -> option N.
Variable env : str -> item_env.
Variable git : git_env.

Local Abbreviation re_match_note := (Run.re_match_note decimal_value).
Local Abbreviation strptime_Ymd := (Run.strptime_Ymd decimal_value).
Local Abbreviation target_of := (Run.target_of decimal_value).
Local Abbreviation progress_of := (Run.progress_of decimal_value env).
Local Abbreviation process_item := (Run.process_item decimal_value env).
Local Abbreviation completed := (Run.completed env).
Local Abbreviation after := (Run.after decimal_value env).
Local Abbreviation iteration := (Run.iteration decimal_value env).
Local Abbreviation loop := (Run.loop decimal_value env).
Local Abbreviation all_note_files_in_dir := (Run.all_note_files_in_dir decimal_value).
Local Abbreviation files_to_process := (Run.files_to_process decimal_value).
Local Abbreviation main := (Run.main decimal_value env git).
Local Abbreviation script := (Run.script decimal_value env git).

Lemma logged_logged (st : state) (a b : list item_event) :
  logged (logged st a) b = logged st (a ++ b).
Proof. unfold logged. simpl. by rewrite <- app_assoc. Qed.

Lemma set_docs_id (st : state) : set_docs (docs st) st = st.
Proof. by destruct st. Qed.

(** *** The writes of the merge *)

Ltac write_steps :=
  repeat progress
    (cbn [docs set_docs]; rewrite ?lookup_insert_eq, ?insert_insert_eq;
     simpl default);
  rewrite <- ?app_assoc; try done.

(** The calls of [f.write] of the three branches, put together: for a
    fragment that can be encoded they leave the merged file; for another one
    the write of the entry raises, and the file holds what the branch wrote
    before it. *)
Lemma write_document_spec (md stripped : str) (st : state) :
  write_document md stripped st
  = if encodable stripped
    then (Ok (case_of (docs st !! md)),
          set_docs (<[ md := merged (docs st !! md) stripped ]> (docs st)) st)
    else (Raise UnicodeEncodeError,
          set_docs (<[ md := default [] (docs st !! md)
                             ++ preamble (docs st !! md) ]> (docs st)) st).
Proof.
  rewrite <- (encodable_entry stripped).
  pose proof (encodable_preamble (docs st !! md)) as Hpre.
  unfold write_document, bind, stored, open_w, f_write, ret, merged, case_of.
  rewrite written_preamble. unfold preamble in *.
  destruct (docs st !! md) as [raw|] eqn:E; simpl default.
  - cbv zeta in *.
    destruct (negb (contains supernote_header_text (universal_newlines raw))).
    + rewrite encodable_app in Hpre. apply andb_true_iff in Hpre as [Hs Hh].
      rewrite Hs. cbn [docs set_docs]. rewrite E, Hh.
      destruct (encodable (entry stripped)); write_steps.
    + destruct (negb (str_eqb (universal_newlines raw) [])
                && negb (endswith [LF] (universal_newlines raw))).
      * change (encodable [LF]) with true. cbn iota. rewrite E.
        destruct (encodable (entry stripped)); write_steps.
      * rewrite E. simpl default. rewrite app_nil_l, app_nil_r.
        destruct (encodable (entry stripped)); [done|].
        by rewrite (insert_id _ _ _ E), set_docs_id.
  - cbn [docs set_docs]. rewrite lookup_insert_eq. simpl default.
    rewrite Hpre.
    destruct (encodable (entry stripped)); write_steps.
Qed.

(** The monadic body computes the state that [progress_of] describes. *)
Lemma process_item_progress (st : state) (filename : str) :
  process_item filename st =
  match progress_of filename with
  | NoMatch => (Ok tt, logged st [Processing filename])
  | Stopped events e => (Raise e, logged st (Processing filename :: events))
  | WriteStopped ymd stripped =>
      (Raise UnicodeEncodeError,
       set_docs (<[ ymd ++ lit ".md"
                    := default [] (docs st !! (ymd ++ lit ".md"))
                       ++ preamble (docs st !! (ymd ++ lit ".md")) ]> (docs st))
         (logged st [Processing filename; Converted filename;
                     Recognized filename]))
  | Completed ymd stripped => (Ok tt, completed st filename ymd stripped)
  end.
Proof.
  unfold Run.process_item, Run.progress_of, check.
  unfold bind, emit, lift, ret.
  destruct (re_match_note filename) as [[d t]|]; [|done].
  destruct (strptime_Ymd d) as [date_obj|e]; [|done].
  destruct (convert_result (env filename)) as [e|]; [done|].
  cbn beta iota.
  destruct (pdf_read_result (env filename)) as [e|];
    [by rewrite ?logged_logged|].
  destruct (post_result (env filename)) as [j|e]; [|by rewrite ?logged_logged].
  destruct (extract_text j) as [v|e]; [|by rewrite ?logged_logged].
  cbn beta iota.
  destruct (py_strip v) as [s|e]; [|by rewrite ?logged_logged].
  destruct (merge_io_result (env filename)) as [e|];
    [by rewrite ?logged_logged|].
  cbn beta iota. rewrite ?logged_logged, write_document_spec. cbn [app].
  destruct (encodable s); [|done].
  unfold add_to_processed_log, mark_processed, Run.completed, logged, set_docs.
  destruct (ledger_append_ok (env filename)); cbn;
    do 2 f_equal; by rewrite <- ?app_assoc.
Qed.

(** One iteration, handlers included, computes the state that [after]
    describes. *)
Lemma iteration_after (st : state) (filename : str) :
  iteration st filename = after st filename.
Proof.
  unfold Run.iteration, Run.after. rewrite process_item_progress.
  destruct (progress_of filename) as [|events e|ymd s|ymd s]; [done| | |done].
  - unfold emit. cbn [snd]. rewrite logged_logged. done.
  - unfold emit, write_stopped, logged, set_docs. cbn.
    f_equal. by rewrite <- app_assoc.
Qed.

Lemma loop_cons (st : state) (filename : str) (rest : list str) :
  loop (filename :: rest) st = loop rest (after st filename).
Proof. unfold Run.loop. simpl. by rewrite iteration_after. Qed.

(** What holds before the loop and is kept by every iteration holds after
    the loop. *)
Lemma loop_invariant (P : state -> Prop) (files : list str) (st : state) :
  P st ->
  (forall st' f, In f files -> P st' -> P (after st' f)) ->
  P (loop files st).
Proof.
  revert st. induction files as [|f fs IH]; intros st H0 Hstep; [done|].
  rewrite loop_cons. apply IH.
  - apply Hstep; [by left | done].
  - intros st' g Hg. apply Hstep. by right.
Qed.

(** The events between [Processing] and the failure are stage successes. *)
Lemma stopped_events (filename : str) (events : list item_event) (e : exn) :
  progress_of filename = Stopped events e ->
  events = [] \/ events = [Converted filename]
  \/ events = [Converted filename; Recognized filename].
Proof.
  unfold Run.progress_of.
  destruct (re_match_note filename) as [[d t]|]; [|done].
  destruct (strptime_Ymd d); [|intros [= <- _]; auto].
  destruct (convert_result (env filename)); [intros [= <- _]; auto|].
  destruct (pdf_read_result (env filename)); [intros [= <- _]; auto|].
  destruct (post_result (env filename)) as [j|]; [|intros [= <- _]; auto].
  destruct (extract_text j) as [v|]; [|intros [= <- _]; auto].
  destruct (py_strip v) as [s|]; [|intros [= <- _]; auto].
  destruct (merge_io_result (env filename)); [intros [= <- _]; auto|].
  by destruct (encodable s).
Qed.

(** A file whose body reaches the writes has a daily document. *)
Lemma progress_target (filename : str) :
  match progress_of filename with
  | WriteStopped ymd _ | Completed ymd _ =>
      target_of filename = Some (ymd ++ lit ".md")
  | _ => True
  end.
Proof.
  unfold Run.progress_of, Run.target_of.
  destruct (re_match_note filename) as [[d t]|]; [|done].
  destruct (strptime_Ymd d); [|done].
  destruct (convert_result (env filename)); [done|].
  destruct (pdf_read_result (env filename)); [done|].
  destruct (post_result (env filename)) as [j|]; [|done].
  destruct (extract_text j) as [v|]; [|done].
  destruct (py_strip v) as [s|]; [|done].
  destruct (merge_io_result (env filename)); [done|].
  by destruct (encodable s).
Qed.

Lemma log_after (st : state) (filename : str) :
  exists chunk, log (after st filename) = log st ++ chunk /\ chunk_ok filename chunk.
Proof.
  unfold Run.after. destruct (progress_of filename) as [|events e|ymd s|ymd s] eqn:E.
  - eexists. split; [reflexivity|]. by left.
  - eexists. split; [reflexivity|]. right. left.
    exists events, (classify e). split; [done|]. by eapply stopped_events.
  - eexists. split; [reflexivity|]. right. left.
    exists [Converted filename; Recognized filename], ParseError. auto.
  - eexists. split; [reflexivity|]. right. right. by do 3 eexists.
Qed.

Lemma log_loop (files : list str) (st : state) :
  exists more, log (loop files st) = log st ++ more.
Proof.
  revert st. induction files as [|f fs IH]; intros st.
  - exists []. by rewrite app_nil_r.
  - rewrite loop_cons. destruct (IH (after st f)) as [more ->].
    destruct (log_after st f) as (chunk & -> & _).
    exists (chunk ++ more). by rewrite app_assoc.
Qed.

(** Every file of the work list is taken up, whatever happened to the files
    before it. *)
Lemma loop_attempts_all (files : list str) (st : state) (filename : str) :
  In filename files -> In (Processing filename) (log (loop files st)).
Proof.
  revert st. induction files as [|f fs IH]; intros st; [done|].
  rewrite loop_cons. intros [->|Hin]; [|by apply IH].
  destruct (log_loop fs (after st filename)) as [more ->].
  destruct (log_after st filename) as (chunk & -> & Hc).
  apply in_or_app. left. apply in_or_app. right.
  destruct Hc as [->|[(ev & cls & -> & _)|(md & how & ok & ->)]]; by left.
Qed.


(** *** Invariants of the loop *)

Lemma ledger_after_merge_app (a b : list item_event) :
  ledger_after_merge a -> ledger_after_merge b -> ledger_after_merge (a ++ b).
Proof.
  intros Ha Hb pre post f ok E.
  apply app_eq_app in E as [l [[-> E]|[-> E]]].
  - destruct l as [|x l].
    + simpl in E. subst b.
      destruct (Hb [] post f ok eq_refl) as (pre' & md & how & Hpre).
      by destruct pre'.
    + injection E as <- ->. exact (Ha pre l f ok eq_refl).
  - destruct (Hb l post f ok E) as (pre' & md & how & ->).
    exists (a ++ pre'), md, how. by rewrite app_assoc.
Qed.

Lemma ledger_after_merge_chunk (filename : str) (chunk : list item_event) :
  chunk_ok filename chunk -> ledger_after_merge chunk.
Proof.
  intros Hc pre post f ok E.
  destruct Hc as [->|[(ev & cls & -> & Hev)|(md & how & ok' & ->)]].
  - repeat (destruct pre as [|? pre]; simplify_eq/=).
  - destruct Hev as [->|[->| ->]];
      repeat (destruct pre as [|? pre]; simplify_eq/=).
  - destruct ok'; repeat (destruct pre as [|? pre]; simplify_eq/=);
      by eexists [Processing _], _, _.
Qed.

Lemma succeeded_in_app (a b : list item_event) :
  succeeded_in (a ++ b) = (succeeded_in a + succeeded_in b)%nat.
Proof. unfold succeeded_in. by rewrite List.filter_app, length_app. Qed.

Lemma succeeded_in_none (l : list item_event) :
  (forall f, ~ In (Succeeded f) l) -> succeeded_in l = 0%nat.
Proof.
  unfold succeeded_in. induction l as [|x l IH]; intros H; [done|].
  simpl. destruct x; try (apply IH; intros f Hf; apply (H f); by right).
  destruct (H filename). by left.
Qed.

Lemma consistent_initial (w : world) : consistent (initial_state w).
Proof.
  repeat split; simpl; try done.
  - by intros [f []].
  - intros pre post f ok E. by destruct pre.
Qed.

Lemma consistent_logged (st : state) (chunk : list item_event) :
  consistent st ->
  (forall f, ~ In (Succeeded f) chunk) ->
  (forall f ok, ~ In (LedgerRecord f ok) chunk) ->
  ledger_after_merge chunk ->
  consistent (logged st chunk).
Proof.
  intros (H1 & H2 & H3 & H4 & H5) Hs Hl Hc. unfold consistent. simpl.
  split; [|split; [done|split; [|split]]].
  4: { rewrite succeeded_in_app, (succeeded_in_none chunk) by done. lia. }
  - rewrite H1. split; intros [f Hf]; exists f.
    + apply in_or_app. by left.
    + apply in_app_or in Hf as [Hf|Hf]; [done | by apply Hs in Hf].
  - intros f ok Hin. apply in_app_or in Hin as [Hin|Hin]; [|by apply Hl in Hin].
    destruct (H3 f ok Hin) as (Hsf & ymd & how & Hm & Hd).
    split; [apply in_or_app; by left|].
    exists ymd, how. split; [apply in_or_app; by left | done].
  - by apply ledger_after_merge_app.
Qed.

(** A chunk that ends in a failure has no success and no ledger record. *)
Lemma failure_chunk (filename : str) (events : list item_event)
    (cls : error_class) :
  events = [] \/ events = [Converted filename]
  \/ events = [Converted filename; Recognized filename] ->
  (forall f, ~ In (Succeeded f)
                  (Processing filename :: events ++ [Failed filename cls]))
  /\ (forall f ok, ~ In (LedgerRecord f ok)
                        (Processing filename :: events ++ [Failed filename cls]))
  /\ ledger_after_merge (Processing filename :: events ++ [Failed filename cls]).
Proof.
  intros E. split; [|split].
  - intros f Hin. destruct E as [->|[->| ->]]; simpl in Hin;
      intuition discriminate.
  - intros f ok Hin. destruct E as [->|[->| ->]]; simpl in Hin;
      intuition discriminate.
  - apply (ledger_after_merge_chunk filename). right. left. by exists events, cls.
Qed.

Lemma consistent_after (st : state) (filename : str) :
  consistent st -> consistent (after st filename).
Proof.
  intros Hst. unfold Run.after.
  destruct (progress_of filename) as [|events e|ymd s|ymd s] eqn:E.
  - apply consistent_logged; [done| | |].
    + intros f [H|[]]; discriminate H.
    + intros f ok [H|[]]; discriminate H.
    + apply (ledger_after_merge_chunk filename). by left.
  - apply stopped_events in E.
    destruct (failure_chunk filename events (classify e) E) as (? & ? & ?).
    by apply consistent_logged.
  - destruct (failure_chunk filename [Converted filename; Recognized filename]
                ParseError) as (? & ? & ?); [auto|].
    unfold write_stopped.
    change (consistent (logged st [Processing filename; Converted filename;
                                   Recognized filename;
                                   Failed filename ParseError])).
    by apply consistent_logged.
  - destruct Hst as (H1 & H2 & H3 & H4 & H5). unfold consistent, Run.completed.
    cbn [log any_file_processed_successfully_this_run processed_dates_for_commit
         newly_processed_count].
    split; [|split; [|split; [|split]]].
    5: { rewrite succeeded_in_app, H5.
         destruct (ledger_append_ok (env filename)); cbn; lia. }
    + split; [intros _|done]. exists filename.
      apply in_or_app. right. apply in_or_app. right. apply in_or_app. right.
      by left.
    + split; [intros _|done]. intros Hempty.
      apply (not_elem_of_empty (C:=gset str) ymd). rewrite <- Hempty.
      by apply elem_of_union_r, elem_of_singleton.
    + intros f ok Hin. apply in_app_or in Hin as [Hin|Hin].
      * destruct (H3 f ok Hin) as (Hsf & ymd' & how & Hm & Hd).
        split; [apply in_or_app; by left|].
        exists ymd', how.
        split; [apply in_or_app; by left | by apply elem_of_union_l].
      * assert (f = filename) as ->.
        { destruct (ledger_append_ok (env filename)); simpl in Hin;
            intuition congruence. }
        split.
        { apply in_or_app. right. apply in_or_app. right. apply in_or_app.
          right. by left. }
        exists ymd, (case_of (docs st !! (ymd ++ lit ".md"))). split.
        { apply in_or_app. right. simpl. auto 6. }
        by apply elem_of_union_r, elem_of_singleton.
    + apply ledger_after_merge_app; [done|].
      apply (ledger_after_merge_chunk filename). right. right. by do 3 eexists.
Qed.

Lemma consistent_loop (files : list str) (st : state) :
  consistent st -> consistent (loop files st).
Proof.
  revert st. induction files as [|f fs IH]; intros st Hst; [done|].
  rewrite loop_cons. by apply IH, consistent_after.
Qed.

(** *** The counters *)

Lemma count_after (st : state) (f : str) :
  newly_processed_count (after st f)
  = (newly_processed_count st + (if is_completed (progress_of f) then 1 else 0))%nat
  /\ processed_dates_for_commit (after st f)
     = processed_dates_for_commit st
       ∪ list_to_set (option_list (date_of (progress_of f)))
  /\ any_file_processed_successfully_this_run (after st f)
     = any_file_processed_successfully_this_run st
       || is_completed (progress_of f).
Proof.
  unfold Run.after. destruct (progress_of f) as [|events e|ymd s|ymd s]; simpl.
  - split; [lia|]. split; [by rewrite union_empty_r_L|by rewrite orb_false_r].
  - split; [lia|]. split; [by rewrite union_empty_r_L|by rewrite orb_false_r].
  - split; [lia|]. split; [by rewrite union_empty_r_L|by rewrite orb_false_r].
  - split; [lia|]. split; [by rewrite union_empty_r_L|by rewrite orb_true_r].
Qed.

Lemma count_loop (files : list str) (st : state) :
  newly_processed_count (loop files st)
  = (newly_processed_count st
     + length (List.filter (fun f => is_completed (progress_of f)) files))%nat
  /\ processed_dates_for_commit (loop files st)
     = processed_dates_for_commit st
       ∪ list_to_set (omap (fun f => date_of (progress_of f)) files)
  /\ any_file_processed_successfully_this_run (loop files st)
     = any_file_processed_successfully_this_run st
       || existsb (fun f => is_completed (progress_of f)) files.
Proof.
  revert st. induction files as [|f fs IH]; intros st.
  - simpl. split; [lia|]. split; [by rewrite union_empty_r_L|by rewrite orb_false_r].
  - rewrite loop_cons. destruct (IH (after st f)) as (-> & -> & ->).
    destruct (count_after st f) as (-> & -> & ->).
    split; [|split].
    + simpl. destruct (is_completed (progress_of f)); simpl; lia.
    + simpl. destruct (progress_of f); simpl;
        by rewrite ?union_empty_r_L, ?union_empty_l_L, ?(assoc_L (∪)).
    + simpl. by rewrite orb_assoc.
Qed.

(** A ledger record in the log of the loop is that of a file of the work
    list whose body ran to its end. *)
Lemma recorded_is_completed (files : list str) (st : state) (f : str) (ok : bool) :
  (forall g b, ~ In (LedgerRecord g b) (log st)) ->
  In (LedgerRecord f ok) (log (loop files st)) ->
  In f files /\ is_completed (progress_of f) = true
  /\ ledger_append_ok (env f) = ok.
Proof.
  intros Hst.
  assert (H : forall g b, In (LedgerRecord g b) (log (loop files st)) ->
            In g files /\ is_completed (progress_of g) = true
            /\ ledger_append_ok (env g) = b); [|apply H].
  apply (loop_invariant
    (fun s => forall g b, In (LedgerRecord g b) (log s) ->
       In g files /\ is_completed (progress_of g) = true
       /\ ledger_append_ok (env g) = b)).
  { intros g b Hin. by apply Hst in Hin. }
  intros st' h Hh IH g b. unfold Run.after.
  destruct (progress_of h) as [|events e|ymd s|ymd s] eqn:E.
  - cbn [log logged]. rewrite in_app_iff. intros [Hin|[Hin|[]]]; [by apply IH|done].
  - apply stopped_events in E.
    destruct (failure_chunk h events (classify e) E) as (_ & Hno & _).
    cbn [log logged]. rewrite in_app_iff. intros [Hin|Hin]; [by apply IH|].
    by apply Hno in Hin.
  - destruct (failure_chunk h [Converted h; Recognized h] ParseError)
      as (_ & Hno & _); [auto|].
    unfold write_stopped. cbn [log logged set_docs]. rewrite in_app_iff.
    intros [Hin|Hin]; [by apply IH|]. by apply Hno in Hin.
  - unfold Run.completed. cbn [log]. rewrite in_app_iff.
    intros [Hin|Hin]; [by apply IH|].
    assert (g = h /\ b = ledger_append_ok (env h)) as [-> ->].
    { destruct (ledger_append_ok (env h)); simpl in Hin;
        repeat (destruct Hin as [Hin|Hin]; [try discriminate Hin|]);
        try done; by injection Hin as -> ->. }
    by rewrite E.
Qed.


(** *** The response shape *)

Lemma missing_field_is_value_error (j : json) :
  missing_field j -> extract_text j = Raise ValueError.
Proof.
  destruct 1 as [m H1|m c0 cs H1 H2|m c0 cs ct H1 H2 H3|m c0 cs ct p0 ps H1 H2 H3 H4];
    unfold extract_text, py_get, py_item; rewrite H1; cbn -[lit].
  - done.
  - by rewrite H2.
  - rewrite H2. cbn -[lit]. destruct ct as [|kv ct']; [done|].
    by rewrite H3.
  - rewrite H2. cbn -[lit]. destruct ct as [|kv ct']; [done|].
    rewrite H3. cbn -[lit]. by rewrite H4.
Qed.

(** How far the body gets when the converter, the service or the shape of
    the answer fails, for a file whose name gives a date. *)
Lemma progress_convert_fails (filename : str) (e : exn) :
  is_Some (target_of filename) ->
  convert_result (env filename) = Some e ->
  progress_of filename = Stopped [] e.
Proof.
  unfold Run.target_of, Run.progress_of. intros [md Hmd] ->.
  destruct (re_match_note filename) as [[d t]|]; [|done].
  by destruct (strptime_Ymd d).
Qed.

Lemma progress_post_fails (filename : str) (e : exn) :
  is_Some (target_of filename) ->
  convert_result (env filename) = None ->
  pdf_read_result (env filename) = None ->
  post_result (env filename) = Raise e ->
  progress_of filename = Stopped [Converted filename] e.
Proof.
  unfold Run.target_of, Run.progress_of. intros [md Hmd] -> -> ->.
  destruct (re_match_note filename) as [[d t]|]; [|done].
  by destruct (strptime_Ymd d).
Qed.

Lemma progress_shape_fails (filename : str) (j : json) (e : exn) :
  is_Some (target_of filename) ->
  convert_result (env filename) = None ->
  pdf_read_result (env filename) = None ->
  post_result (env filename) = Ok j ->
  extract_text j = Raise e ->
  progress_of filename = Stopped [Converted filename] e.
Proof.
  unfold Run.target_of, Run.progress_of. intros [md Hmd] -> -> -> ->.
  destruct (re_match_note filename) as [[d t]|]; [|done].
  by destruct (strptime_Ymd d).
Qed.

(** C5: for a file of the work list whose name gives a date, a converter
    that raises CalledProcessError is logged as a conversion failure, a
    request that raises RequestException as an HTTP failure, and an answer
    in which one of the fields candidates, content, parts, text is missing
    raises ValueError and is logged as a parse failure; in each case the
    iteration leaves the state as it was but for the log: the ledger file,
    the set in memory, the documents, the touched dates and the counters are
    untouched.  Whatever exception the body raises, at whatever stage, the
    handlers log a failure of its class, no ledger record is logged, and the
    ledger file, the set in memory, the touched dates and the counter are
    what they were; the documents too, unless the write of the entry into the
    daily document raised.  The loop then goes on with the files that follow,
    each of which is taken up. *)
Theorem item_failure_is_contained
    (st : state) (filename : str) (rest : list str) :
  (is_Some (target_of filename) ->
   (convert_result (env filename) = Some CalledProcessError ->
    iteration st filename
    = logged st [Processing filename; Failed filename ConversionError])
   /\ (convert_result (env filename) = None ->
       pdf_read_result (env filename) = None ->
       post_result (env filename) = Raise RequestException ->
       iteration st filename
       = logged st [Processing filename; Converted filename;
                    Failed filename HttpError])
   /\ (forall j,
         convert_result (env filename) = None ->
         pdf_read_result (env filename) = None ->
         post_result (env filename) = Ok j -> missing_field j ->
         extract_text j = Raise ValueError
         /\ iteration st filename
            = logged st [Processing filename; Converted filename;
                         Failed filename ParseError]))
  /\ (forall e st1,
        process_item filename st = (Raise e, st1) ->
        (exists stages,
           log (iteration st filename)
           = log st ++ Processing filename :: stages
                    ++ [Failed filename (classify e)]
           /\ forall f ok, ~ In (LedgerRecord f ok) stages)
        /\ ledger (iteration st filename) = ledger st
        /\ already_processed_files (iteration st filename)
           = already_processed_files st
        /\ processed_dates_for_commit (iteration st filename)
           = processed_dates_for_commit st
        /\ newly_processed_count (iteration st filename)
           = newly_processed_count st
        /\ (docs (iteration st filename) = docs st
            \/ exists md,
                 e = UnicodeEncodeError /\ target_of filename = Some md
                 /\ docs (iteration st filename)
                    = <[ md := default [] (docs st !! md)
                               ++ preamble (docs st !! md) ]> (docs st)))
  /\ loop (filename :: rest) st = loop rest (iteration st filename)
  /\ (forall next, In next rest ->
        In (Processing next) (log (loop (filename :: rest) st))).
Proof.
  split; [|split; [|split]].
  - intros Ht. split; [|split].
    + intros Hc. rewrite iteration_after. unfold Run.after.
      by rewrite (progress_convert_fails filename _ Ht Hc).
    + intros Hc Hp Hr. rewrite iteration_after. unfold Run.after.
      by rewrite (progress_post_fails filename _ Ht Hc Hp Hr).
    + intros j Hc Hp Hr Hm. apply missing_field_is_value_error in Hm.
      split; [done|]. rewrite iteration_after. unfold Run.after.
      by rewrite (progress_shape_fails filename j _ Ht Hc Hp Hr Hm).
  - intros e st1 Hraise. rewrite process_item_progress in Hraise.
    rewrite iteration_after. unfold Run.after.
    pose proof (progress_target filename) as Htarget.
    destruct (progress_of filename) as [|events e'|ymd s|ymd s] eqn:E;
      [done| | |done].
    + injection Hraise as <- <-. apply stopped_events in E.
      destruct (failure_chunk filename events (classify e') E) as (_ & Hno & _).
      split; [|by auto 10].
      exists events. split; [done|].
      intros f ok Hin. apply (Hno f ok). right. apply in_or_app. by left.
    + injection Hraise as <- <-.
      split; [|split; [done|split; [done|split; [done|split; [done|]]]]].
      * exists [Converted filename; Recognized filename]. split; [done|].
        intros f ok Hin. simpl in Hin. intuition discriminate.
      * right. by exists (ymd ++ lit ".md").
  - unfold Run.loop. done.
  - intros next Hin. apply loop_attempts_all. by right.
Qed.

(** C8: in the log of a run every ledger record of a file comes right after
    the conversion, the recognition and the merge of that file, in this
    order; and an iteration that changes the ledger file is one that has
    merged the fragment into the document of its date. *)
Theorem ledger_record_follows_merge (w : world) :
  ledger_after_merge (log (final (script w)))
  /\ forall st filename,
       ledger (iteration st filename) = ledger st
       \/ exists ymd stripped,
            docs (iteration st filename)
            = <[ ymd ++ lit ".md"
                 := merged (docs st !! (ymd ++ lit ".md")) stripped ]> (docs st)
            /\ ledger (iteration st filename) = appended (ledger st) filename
            /\ ledger_append_ok (env filename) = true.
Proof.
  split.
  - assert (H0 : ledger_after_merge (log (initial_state w)))
      by apply consistent_initial.
    unfold Run.script, Run.main, stop, uncaught.
    destruct (configure_path _ _); [|done].
    destruct (credential_file w) as [key|e]; [|by destruct e].
    destruct (str_eqb (GOOGLE_API_KEY key) []); [done|].
    destruct (input_dir w) as [entries|]; [|done].
    destruct (output_dir_fault w); [done|].
    destruct (listdir_fault w); [done|].
    destruct (negb _); [done|]. simpl.
    apply consistent_loop, consistent_initial.
  - intros st filename. rewrite iteration_after. unfold Run.after.
    destruct (progress_of filename) as [|events e|ymd s|ymd s];
      [by left|by left|by left|].
    unfold Run.completed. simpl.
    destruct (ledger_append_ok (env filename)); [right|by left].
    by exists ymd, s.
Qed.


(** *** The shape of a run *)

Lemma nonempty_true {A} (l : list A) : nonempty l = true <-> l <> [].
Proof. by destruct l. Qed.

(** The four ways a run ends: an exception that escapes at the start, a
    fatal precondition, nothing to do, or the loop over a work list that is
    not empty. *)
Lemma script_cases (w : world) :
  (exists e,
     escapes w e /\ script w = uncaught e (initial_state w))
  \/ (exists why,
        (exists path, configure_path (tool_path w) (search_path w) = Ok path)
        /\ (why = CredentialMissing /\ credential_file w = Raise FileNotFoundError
            \/ (why = CredentialEmpty
                /\ exists key, credential_file w = Ok key
                               /\ GOOGLE_API_KEY key = [])
            \/ (why = InputDirMissing
                /\ (exists key, credential_file w = Ok key
                                /\ GOOGLE_API_KEY key <> [])
                /\ input_dir w = None))
        /\ script w = stop why (initial_state w))
  \/ (exists entries,
        ready w /\ input_dir w = Some entries
        /\ files_to_process entries (load_processed_files (processed_log_file w)) = []
        /\ script w = {| exit_code := 0; trace := [NothingToDo];
                         final := initial_state w |})
  \/ (exists entries vcs,
        ready w /\ input_dir w = Some entries
        /\ let files :=
             files_to_process entries
               (load_processed_files (processed_log_file w)) in
           let st := loop files (initial_state w) in
           files <> []
           /\ vcs = (if bool_decide (processed_dates_for_commit st = ∅)
                     then [NoGit]
                     else map Git (git_operations git (processed_dates_for_commit st)))
           /\ script w = {| exit_code := exit_of (verdict_of st files);
                            trace := map Item (log st) ++ vcs
                                     ++ [summary_event
                                           (length (all_note_files_in_dir entries))
                                           st files;
                                         Finished (verdict_of st files)];
                            final := st |}).
Proof.
  unfold Run.script, escapes, ready.
  destruct (configure_path (tool_path w) (search_path w)) as [path|e] eqn:Hp;
    [|left; eauto].
  assert (Hpath : exists path', Ok path = Ok path') by by exists path.
  destruct (credential_file w) as [key|e] eqn:Hc.
  2: { destruct e; try (left; eexists; split; [right; split; [done|left]|]; done).
       right. left. exists CredentialMissing. auto. }
  destruct (str_eqb (GOOGLE_API_KEY key) []) eqn:Hk.
  { apply str_eqb_nil in Hk. right. left. exists CredentialEmpty.
    split; [done|]. split; [|done]. right. left. split; [done|]. by exists key. }
  assert (Hkey : exists key', Ok key = Ok key' /\ GOOGLE_API_KEY key' <> []).
  { exists key. split; [done|]. intros E. apply str_eqb_nil in E. congruence. }
  unfold Run.main.
  destruct (input_dir w) as [entries|] eqn:Hd.
  2: { right. left. exists InputDirMissing. split; [done|]. split; [|done].
       right. right. done. }
  destruct (output_dir_fault w) as [e|] eqn:Ho.
  { left. exists e. split; [|done]. right. split; [done|]. right.
    split; [done|]. split; [done|]. by left. }
  destruct (listdir_fault w) as [e|] eqn:Hl.
  { left. exists e. split; [|done]. right. split; [done|]. right.
    split; [done|]. split; [done|]. by right. }
  cbn [initial_state already_processed_files].
  destruct (files_to_process entries _) as [|f fs] eqn:Hf.
  - right. right. left. exists entries. by rewrite Hf.
  - right. right. right. do 2 eexists. split; [done|]. split; [done|].
    cbn zeta. rewrite Hf. split; [done|]. split; reflexivity.
Qed.

(** A run that is ready has no exception that escapes. *)
Lemma ready_not_escapes (w : world) (e : exn) : ready w -> ~ escapes w e.
Proof.
  intros ([path Hp] & (key & Hc & Hk) & Hd & Ho & Hl). unfold escapes.
  rewrite Hp, Hc, Ho, Hl. intros [?|[_ [[? _]|(_ & _ & [?|[_ ?]])]]]; done.
Qed.

(** The run over a work list that is not empty. *)
Lemma script_ready (w : world) (entries : list (str * bool)) :
  ready w -> input_dir w = Some entries ->
  let files :=
    files_to_process entries (load_processed_files (processed_log_file w)) in
  let st := loop files (initial_state w) in
  files <> [] ->
  script w
  = {| exit_code := exit_of (verdict_of st files);
       trace := map Item (log st)
                ++ (if bool_decide (processed_dates_for_commit st = ∅)
                    then [NoGit]
                    else map Git (git_operations git (processed_dates_for_commit st)))
                ++ [summary_event (length (all_note_files_in_dir entries))
                      st files;
                    Finished (verdict_of st files)];
       final := st |}.
Proof.
  intros Hr Hd files st Hf.
  destruct (script_cases w) as
    [(e & He & _)
    |[(why & _ & Hw & _)
     |[(entries' & _ & Hd' & Hf' & _)
      |(entries' & vcs & _ & Hd' & _ & -> & ->)]]].
  - by destruct (ready_not_escapes w e Hr).
  - destruct Hr as (_ & (k & Hc' & Hk') & Hd'' & _).
    destruct Hw as [[_ Hc]|[(_ & key & Hc & Hk)|(_ & _ & Hd')]]; congruence.
  - rewrite Hd in Hd'. injection Hd' as <-. by destruct Hf.
  - rewrite Hd in Hd'. by injection Hd' as <-.
Qed.

Lemma git_events_items (l : list item_event) : git_events (map Item l) = [].
Proof. by induction l. Qed.

Lemma git_events_git (l : list git_event) : git_events (map Git l) = l.
Proof. induction l as [|g l IH]; [done|]. cbn. by f_equal. Qed.

Lemma git_events_app (a b : list event) :
  git_events (a ++ b) = git_events a ++ git_events b.
Proof. apply omap_app. Qed.

(** The events of the trace of a loop that are no item and no Git event are
    the notice that Git is not run, the summary and the verdict. *)
Lemma in_loop_trace (ev : event) (l : list item_event) (gs : list git_event)
    (summary : event) (v : verdict) (vcs : list event) :
  vcs = [NoGit] \/ vcs = map Git gs ->
  In ev (map Item l ++ vcs ++ [summary; Finished v])
  <-> (exists e, ev = Item e /\ In e l)
      \/ (vcs = [NoGit] /\ ev = NoGit)
      \/ (vcs = map Git gs /\ exists g, ev = Git g /\ In g gs)
      \/ ev = summary \/ ev = Finished v.
Proof.
  intros Hv. rewrite !in_app_iff, in_map_iff. split.
  - intros [(x & <- & Hx)|[Hin|[Hin|[Hin|[]]]]]; eauto 10.
    destruct Hv as [->| ->].
    + destruct Hin as [<-|[]]. auto.
    + apply in_map_iff in Hin as (g & <- & Hg). eauto 10.
  - intros [(e & -> & He)|[[-> ->]|[(-> & g & -> & Hg)|[->| ->]]]]; eauto 10.
    + right. left. by left.
    + right. left. apply in_map_iff. eauto.
    + right. right. by left.
    + right. right. right. by left.
Qed.

Lemma configure_path_raises (tool_path path : option str) (e : exn) :
  configure_path tool_path path = Raise e
  <-> e = KeyError /\ path = None
      /\ exists tool, tool_path = Some tool /\ tool <> [].
Proof.
  unfold configure_path. split.
  - destruct tool_path as [[|c tool]|]; try done.
    destruct path as [p|].
    + by destruct (negb _).
    + intros [= <-]. split; [done|]. split; [done|]. by exists (c :: tool).
  - intros (-> & -> & tool & -> & Hne). by destruct tool.
Qed.

(** C6 (amended): the exit code is 1 exactly when an exception escapes at
    the start of the run, or the credential file is missing or trims to
    nothing, or the input directory is missing, or there were files to
    process and no [Succeeded] was logged.  An exception escapes exactly
    when SUPERNOTE_TOOL_PATH is set, not empty, and PATH is unset; or else
    reading the credential raises another exception than a missing file; or
    else, the credential and the input directory being there, making the
    output directories or listing the input directory raises.  In every
    other run the exit code is 0: a run that is ready and has nothing to do,
    and a run in which a file was processed, all of them or some. *)
Theorem exit_code_classification (w : world) :
  let o := script w in
  let work :=
    files_to_process (default [] (input_dir w))
      (load_processed_files (processed_log_file w)) in
  (exit_code o = 1
   <-> (exists e, In (Uncaught e) (trace o))
       \/ credential_file w = Raise FileNotFoundError
       \/ (exists key, credential_file w = Ok key /\ GOOGLE_API_KEY key = [])
       \/ input_dir w = None
       \/ (work <> [] /\ forall f, ~ In (Succeeded f) (log (final o))))
  /\ (forall e, In (Uncaught e) (trace o) <-> escapes w e)
  /\ (forall e,
        escapes w e
        <-> (e = KeyError /\ search_path w = None
             /\ exists tool, tool_path w = Some tool /\ tool <> [])
            \/ ((exists path,
                   configure_path (tool_path w) (search_path w) = Ok path)
                /\ ((credential_file w = Raise e /\ e <> FileNotFoundError)
                    \/ ((exists key, credential_file w = Ok key
                                     /\ GOOGLE_API_KEY key <> [])
                        /\ input_dir w <> None
                        /\ (output_dir_fault w = Some e
                            \/ (output_dir_fault w = None
                                /\ listdir_fault w = Some e))))))
  /\ (exit_code o = 1 \/ exit_code o = 0)
  /\ (ready w -> work = [] -> exit_code o = 0 /\ trace o = [NothingToDo])
  /\ (ready w -> (exists f, In (Succeeded f) (log (final o))) -> exit_code o = 0).
Proof.
  intros o work. subst o.
  assert (Hesc : forall e,
    escapes w e
    <-> (e = KeyError /\ search_path w = None
         /\ exists tool, tool_path w = Some tool /\ tool <> [])
        \/ ((exists path,
               configure_path (tool_path w) (search_path w) = Ok path)
            /\ ((credential_file w = Raise e /\ e <> FileNotFoundError)
                \/ ((exists key, credential_file w = Ok key
                                 /\ GOOGLE_API_KEY key <> [])
                    /\ input_dir w <> None
                    /\ (output_dir_fault w = Some e
                        \/ (output_dir_fault w = None
                            /\ listdir_fault w = Some e)))))).
  { intros e. unfold escapes. by rewrite configure_path_raises. }
  destruct (script_cases w) as
    [(e & He & ->)
    |[(why & [path Hp] & Hw & ->)
     |[(entries & Hr & Hd & Hf & ->)
      |(entries & vcs & Hr & Hd & Hf & Hv & ->)]]];
    cbn [exit_code final trace stop uncaught].
  - split; [|split; [|split; [done|split; [by left|]]]].
    + split; [intros _|done]. left. exists e. by left.
    + intros e'. split.
      * intros [[= <-]|[]]. done.
      * intros He'. left. f_equal.
        unfold escapes in He, He'.
        destruct (configure_path _ _), (credential_file w), (input_dir w),
          (output_dir_fault w), (listdir_fault w);
          intuition (try congruence);
          repeat match goal with
                 | H : exists _, _ |- _ => destruct H
                 | H : _ /\ _ |- _ => destruct H
                 end; congruence.
    + split; intros Hr; by destruct (ready_not_escapes w e Hr).
  - split; [|split; [|split; [done|split; [by left|]]]].
    + split; [intros _|done].
      destruct Hw as [[_ ?]|[[_ ?]|(_ & _ & ?)]]; auto.
    + intros e. split; [by intros [|[]]|]. unfold escapes. rewrite Hp.
      intros [?|[_ He]]; [done|].
      destruct Hw as [[_ Hc]|[(_ & key & Hc & Hk)|(_ & (key & Hc & Hk) & Hd)]];
        rewrite Hc in He.
      * by destruct He as [[[= <-] ?]|[(k & ? & _) _]].
      * destruct He as [[? _]|[(k & [= <-] & ?) _]]; done.
      * destruct He as [[? _]|(_ & ? & _)]; done.
    + unfold ready.
      split; intros (_ & (k & Hc' & Hk') & Hd' & _);
        destruct Hw as [[_ Hc]|[(_ & key & Hc & Hk)|(_ & _ & Hd)]];
        congruence.
  - pose proof Hr as (_ & (key & Hc & Hk) & _).
    assert (Hw : work = []) by (subst work; by rewrite Hd).
    clearbody work. subst work.
    split; [|split; [|split; [done|split; [by right|done]]]].
    + split; [done|].
      intros [[e [|[]]]|[?|[(k & ? & ?)|[?|[? _]]]]]; congruence.
    + intros e. split; [by intros [|[]]|]. by intros ?%ready_not_escapes.
  - pose proof Hr as (_ & (key & Hc & Hk) & _).
    set (files := files_to_process entries _) in *.
    assert (Hw : work = files) by (subst work files; by rewrite Hd).
    clearbody work. subst work.
    set (st := loop files (initial_state w)) in *.
    destruct (consistent_loop files (initial_state w) (consistent_initial w))
      as (Hany & _). fold st in Hany.
    assert (Hshape : vcs = [NoGit]
              \/ vcs = map Git (git_operations git (processed_dates_for_commit st))).
    { rewrite Hv. destruct (bool_decide _); auto. }
    assert (Hno : forall e, ~ In (Uncaught e)
              (map Item (log st) ++ vcs
               ++ [summary_event (length (all_note_files_in_dir entries)) st files;
                   Finished (verdict_of st files)])).
    { intros e Hin. apply (in_loop_trace _ _ _ _ _ _ Hshape) in Hin.
      destruct Hin as [(x & ? & _)|[[_ ?]|[(_ & g & ? & _)|[?|?]]]]; done. }
    assert (Hexit : exit_of (verdict_of st files) = 1
              <-> forall f, ~ In (Succeeded f) (log st)).
    { unfold verdict_of. apply nonempty_true in Hf as Hne.
      rewrite Hne, !andb_true_r.
      destruct (any_file_processed_successfully_this_run st) eqn:Ha; cbn [negb].
      - destruct (proj1 Hany eq_refl) as [f Hin].
        split; [by destruct (_ <? _)%nat|]. intros Hnone. by destruct (Hnone f).
      - split; [intros _|done]. intros f Hin.
        assert (false = true); [|done]. apply Hany. by exists f. }
    split; [|split; [|split; [done|split; [|split]]]].
    + rewrite Hexit. split; [auto 10|].
      intros [[e He]|[?|[(k & ? & ?)|[?|[_ ?]]]]]; try congruence;
        [by destruct (Hno e) | done].
    + intros e. split; [intros Hin; by destruct (Hno e)|].
      by intros ?%ready_not_escapes.
    + unfold exit_of. destruct (verdict_of st files); auto.
    + intros _ Hnil. by destruct Hf.
    + intros _ [f Hin].
      destruct (exit_of (verdict_of st files) =? 1) eqn:E.
      * apply N.eqb_eq in E. by destruct (proj1 Hexit E f).
      * apply N.eqb_neq in E. unfold exit_of in *.
        by destruct (verdict_of st files).
Qed.

(** The summary of a run over a work list: the number of files found, the
    size of the set in memory less the counter, the number of files
    attempted, the number of those whose body ran to its end, and the
    difference of the last two. *)
Lemma summary_of_loop (found : nat) (files : list str) (w : world) :
  let st := loop files (initial_state w) in
  let finished := List.filter (fun f => is_completed (progress_of f)) files in
  summary_event found st files
  = Summary (Z.of_nat found)
      (Z.of_nat (size (already_processed_files st)) - Z.of_nat (length finished))
      (Z.of_nat (length files)) (Z.of_nat (length finished))
      (Z.of_nat (length files) - Z.of_nat (length finished)).
Proof.
  intros st finished. unfold summary_event.
  destruct (count_loop files (initial_state w)) as (Hc & _).
  fold st in Hc. by rewrite Hc.
Qed.

End Program.

(** *** A ledger append that fails *)

Section Collaborators.

Variable decimal_value : char -> option N.
Variable env : str -> item_env.
Variable git : git_env.

Local Abbreviation progress_of := (Run.progress_of decimal_value env).
Local Abbreviation after := (Run.after decimal_value env).
Local Abbreviation loop := (Run.loop decimal_value env).
Local Abbreviation all_note_files_in_dir := (Run.all_note_files_in_dir decimal_value).
Local Abbreviation files_to_process := (Run.files_to_process decimal_value).
Local Abbreviation script := (Run.script decimal_value env git).

Lemma progress_all_logged (filename : str) :
  Run.progress_of decimal_value (all_logged env) filename = progress_of filename.
Proof. done. Qed.

Lemma core_after (st st' : state) (filename : str) :
  core st = core st' ->
  core (after st filename)
  = core (Run.after decimal_value (all_logged env) st' filename).
Proof.
  unfold Run.after. rewrite progress_all_logged.
  unfold core. intros [= Hd Ht Ha Hn].
  destruct (progress_of filename) as [|events e|ymd s|ymd s]; simpl;
    by rewrite ?Hd, ?Ht, ?Ha, ?Hn.
Qed.

Lemma core_loop (files : list str) (st st' : state) :
  core st = core st' ->
  core (loop files st) = core (Run.loop decimal_value (all_logged env) files st').
Proof.
  revert st st'. induction files as [|f fs IH]; intros st st' H; [done|].
  rewrite !loop_cons. by apply IH, core_after.
Qed.

Lemma verdict_of_core (st st' : state) (files : list str) :
  core st = core st' -> verdict_of st files = verdict_of st' files.
Proof. unfold core, verdict_of. by intros [= _ _ -> ->]. Qed.

(** The run in which no ledger append fails ends with the same exit code,
    documents, touched dates and counters. *)
Lemma script_all_logged (w : world) :
  exit_code (Run.script decimal_value (all_logged env) git w) = exit_code (script w)
  /\ core (final (Run.script decimal_value (all_logged env) git w))
     = core (final (script w)).
Proof.
  unfold Run.script, Run.main, stop, uncaught.
  destruct (configure_path _ _); [|done].
  destruct (credential_file w) as [key|e]; [|by destruct e].
  destruct (str_eqb (GOOGLE_API_KEY key) []); [done|].
  destruct (input_dir w) as [entries|]; [|done].
  destruct (output_dir_fault w); [done|].
  destruct (listdir_fault w); [done|].
  destruct (negb _); [done|]. cbn [exit_code final].
  set (files := files_to_process entries _).
  pose proof (core_loop files (initial_state w) (initial_state w) eq_refl) as Hc.
  split; [|done]. f_equal. symmetry. by apply verdict_of_core.
Qed.

Lemma in_item_trace (e : item_event) (l : list item_event)
    (gs : list git_event) (found : nat) (st : state) (files : list str)
    (v : verdict) (vcs : list event) :
  vcs = [NoGit] \/ vcs = map Git gs ->
  In (Item e) (map Item l ++ vcs ++ [summary_event found st files; Finished v])
  <-> In e l.
Proof.
  intros Hv. rewrite (in_loop_trace _ _ _ _ _ _ Hv). split.
  - intros [(x & [= ->] & Hx)|[[_ ?]|[(_ & g & ? & _)|[?|?]]]]; done.
  - intros Hin. left. by exists e.
Qed.

(** C10: when the append of a file to the ledger has failed, the file is
    logged as succeeded; the summary of the run counts it among the files
    processed: its count of processed files is the number of files of the
    work list whose body ran to the end of the merge, this file among them,
    and its count of failures is the rest of the work list, as in the summary
    of the run in which every append succeeds; the date of its document is
    among the touched dates and Git is run; and the exit code is 0, the exit
    code of the run in which every append succeeds, which has the same
    documents, touched dates and counters. *)
Theorem ledger_failure_still_counts (w : world) (filename : str) :
  In (Item (LedgerRecord filename false)) (trace (script w)) ->
  let work :=
    files_to_process (default [] (input_dir w))
      (load_processed_files (processed_log_file w)) in
  let finished := List.filter (fun f => is_completed (progress_of f)) work in
  let attempted := Z.of_nat (length work) in
  let succeeded := Z.of_nat (length finished) in
  In (Item (Succeeded filename)) (trace (script w))
  /\ In filename finished
  /\ (exists found already,
        In (Summary found already attempted succeeded (attempted - succeeded))
           (trace (script w)))
  /\ (exists found already,
        In (Summary found already attempted succeeded (attempted - succeeded))
           (trace (Run.script decimal_value (all_logged env) git w)))
  /\ newly_processed_count (final (script w))
     = succeeded_in (log (final (script w)))
  /\ newly_processed_count (final (script w)) = length finished
  /\ (exists ymd how,
        In (Item (Merged filename (ymd ++ lit ".md") how)) (trace (script w))
        /\ ymd ∈ processed_dates_for_commit (final (script w)))
  /\ In (Git GitRevParse) (trace (script w))
  /\ exit_code (script w) = 0
  /\ exit_code (Run.script decimal_value (all_logged env) git w)
     = exit_code (script w)
  /\ core (final (Run.script decimal_value (all_logged env) git w))
     = core (final (script w)).
Proof.
  intros Hrec work finished attempted succeeded.
  subst work finished attempted succeeded.
  destruct (script_all_logged w) as [Hexit Hcore].
  revert Hrec Hexit Hcore.
  destruct (script_cases decimal_value env git w) as
    [(e & _ & ->)
    |[(why & _ & _ & ->)
     |[(entries & _ & _ & _ & ->)
      |(entries & vcs & Hr & Hd & Hf & Hv & ->)]]];
    cbn [exit_code final trace stop uncaught];
    [by intros [|[]] | by intros [|[]] | by intros [|[]] |].
  pose proof (script_ready decimal_value (all_logged env) git w entries Hr Hd Hf)
    as Hall.
  rewrite Hd. simpl default.
  set (files := files_to_process entries _) in *.
  set (st := loop files (initial_state w)) in *.
  destruct (consistent_loop decimal_value env files (initial_state w)
              (consistent_initial w))
    as (Hany & Hdates & Hled & _ & Hcount). fold st in Hany, Hdates, Hled, Hcount.
  destruct (count_loop decimal_value env files (initial_state w)) as (Hn & _).
  fold st in Hn. cbn in Hn.
  assert (Hshape : vcs = [NoGit]
            \/ vcs = map Git (git_operations git (processed_dates_for_commit st))).
  { rewrite Hv. destruct (bool_decide _); auto. }
  rewrite !(in_item_trace _ _ _ _ _ _ _ _ Hshape).
  intros Hrec Hexit Hcore.
  destruct (Hled _ _ Hrec) as (Hs & ymd & how & Hm & Hd').
  assert (Ha : any_file_processed_successfully_this_run st = true).
  { apply Hany. by exists filename. }
  destruct (recorded_is_completed decimal_value env files (initial_state w)
              filename false) as (Hw & Hdone & _); [by intros g b []|done|].
  split_and!; try done.
  - apply filter_In. by split.
  - eexists _, _. apply in_or_app. right. apply in_or_app. right. left.
    apply (summary_of_loop decimal_value env).
  - rewrite Hall. eexists _, _. cbn [trace].
    apply in_or_app. right. apply in_or_app. right. left.
    apply (summary_of_loop decimal_value (all_logged env)
             (length (all_note_files_in_dir entries)) files w).
  - exists ymd, how. by rewrite (in_item_trace _ _ _ _ _ _ _ _ Hshape).
  - apply in_or_app. right. apply in_or_app. left. rewrite Hv.
    rewrite bool_decide_eq_false_2 by (by apply Hdates). by left.
  - unfold verdict_of. rewrite Ha. cbn [negb andb]. by destruct (_ && _).
Qed.

(** *** Git *)

Lemma git_operations_NoDup (dates : gset str) : NoDup (git_operations git dates).
Proof.
  unfold git_operations.
  destruct (rev_parse git), (add_ok git), (status_dirty git), (commit_ok git);
    repeat (apply NoDup_cons_2;
            [rewrite list_elem_of_In; simpl; intros H;
             repeat (destruct H as [H|H]; [discriminate H|]); exact H|]);
    apply NoDup_nil_2.
Qed.

Lemma commit_message_names (dates : gset str) (d : str) :
  d ∈ dates -> contains d (commit_message dates) = true.
Proof.
  intros Hd. unfold commit_message. apply contains_app_r, contains_join.
  apply list_elem_of_In. rewrite merge_sort_Permutation.
  by apply elem_of_elements.
Qed.

(** The Git events of a run: none when no date was touched, and else the
    Git step for the touched dates. *)
Lemma script_git_events (w : world) :
  let dates := processed_dates_for_commit (final (script w)) in
  (dates = ∅ /\ git_events (trace (script w)) = [])
  \/ (dates <> ∅
      /\ (exists f, In (Succeeded f) (log (final (script w))))
      /\ git_events (trace (script w)) = git_operations git dates).
Proof.
  destruct (script_cases decimal_value env git w) as
    [(e & _ & ->)
    |[(why & _ & _ & ->)
     |[(entries & _ & _ & _ & ->)
      |(entries & vcs & _ & _ & Hf & Hv & ->)]]];
    cbn [final trace stop uncaught]; [by left | by left | by left |].
  set (files := files_to_process entries _) in *.
  set (st := loop files (initial_state w)) in *.
  destruct (consistent_loop decimal_value env files (initial_state w)
              (consistent_initial w)) as (Hany & Hdates & _).
  fold st in Hany, Hdates.
  rewrite !git_events_app, git_events_items, Hv. cbn [app].
  destruct (bool_decide_reflect (processed_dates_for_commit st = ∅)) as [He|Hne].
  - by left.
  - right. split; [done|]. split; [by apply Hany, Hdates|].
    rewrite git_events_git. cbn. by rewrite app_nil_r.
Qed.

(** C9: when no date was touched no Git command is run.  When a date was
    touched, which is when a file was processed, the one Git step is run
    after the loop: its first command is the check of the work tree; when
    the check fails, as in a directory that is no repository, the warning
    follows and nothing else; when it prints true, the add succeeds and the
    status shows changes, the commit follows, and the push when the commit
    succeeded.  No command runs twice; every commit of the trace has the
    message that contains every touched date; and the exit code is the same
    whatever Git answers, a failed push included. *)
Theorem git_once_per_run (w : world) :
  let o := script w in
  let dates := processed_dates_for_commit (final o) in
  let gs := git_events (trace o) in
  (dates = ∅ -> gs = [])
  /\ (dates <> ∅ <-> exists f, In (Item (Succeeded f)) (trace o))
  /\ (dates <> ∅ ->
      gs = git_operations git dates
      /\ head gs = Some GitRevParse
      /\ (rev_parse git = RevParseFailed -> gs = [GitRevParse; GitSkipWarning])
      /\ (rev_parse git = RevParseTrue -> add_ok git = true ->
          status_dirty git = true ->
          gs = [GitRevParse; GitAdd; GitStatus; GitCommit (commit_message dates)]
               ++ (if commit_ok git then [GitPush] else [])))
  /\ NoDup gs
  /\ (forall message,
        In (GitCommit message) gs ->
        message = commit_message dates
        /\ forall d, d ∈ dates -> contains d message = true)
  /\ (forall git' : git_env,
        exit_code (Run.script decimal_value env git' w) = exit_code o).
Proof.
  intros o dates gs.
  pose proof (script_git_events w) as Hgs. cbv zeta in Hgs.
  fold o in Hgs. fold dates in Hgs. fold gs in Hgs.
  split; [|split; [|split; [|split; [|split]]]].
  - intros He. by destruct Hgs as [[_ ?]|[? _]].
  - subst o dates.
    destruct (script_cases decimal_value env git w) as
      [(e & _ & ->)
      |[(why & _ & _ & ->)
       |[(entries & _ & _ & _ & ->)
        |(entries & vcs & _ & _ & Hf & Hv & ->)]]];
      cbn [final trace stop uncaught initial_state processed_dates_for_commit];
      try (split; [done | by intros [f [|[]]]]).
    set (files := files_to_process entries _) in *.
    set (st := loop files (initial_state w)) in *.
    destruct (consistent_loop decimal_value env files (initial_state w)
                (consistent_initial w)) as (Hany & Hdates & _).
    fold st in Hany, Hdates.
    assert (Hshape : vcs = [NoGit]
              \/ vcs = map Git (git_operations git (processed_dates_for_commit st))).
    { rewrite Hv. destruct (bool_decide _); auto. }
    rewrite <- Hdates, Hany.
    split; intros [f Hin]; exists f;
      [by rewrite (in_item_trace _ _ _ _ _ _ _ _ Hshape)
      |by rewrite (in_item_trace _ _ _ _ _ _ _ _ Hshape) in Hin].
  - intros Hne. destruct Hgs as [[? _]|(_ & _ & Hgs)]; [done|].
    rewrite Hgs. split; [done|]. split; [done|]. unfold git_operations.
    split; [by intros ->|]. by intros -> -> ->.
  - destruct Hgs as [[_ ->]|(_ & _ & ->)];
      [apply NoDup_nil_2 | apply git_operations_NoDup].
  - intros message Hin. destruct Hgs as [[_ E]|(_ & _ & E)];
      rewrite E in Hin; [done|].
    assert (message = commit_message dates) as ->.
    { unfold git_operations in Hin.
      destruct (rev_parse git), (add_ok git), (status_dirty git), (commit_ok git);
        simpl in Hin; intuition congruence. }
    split; [done|]. intros d. apply commit_message_names.
  - intros git'. subst o. unfold Run.script, Run.main, stop, uncaught.
    destruct (configure_path _ _); [|done].
    destruct (credential_file w) as [key|e]; [|by destruct e].
    destruct (str_eqb (GOOGLE_API_KEY key) []); [done|].
    destruct (input_dir w) as [entries|]; [|done].
    destruct (output_dir_fault w); [done|].
    destruct (listdir_fault w); [done|].
    by destruct (negb _).
Qed.

End Collaborators.

(** *** Sample runs *)

Import Sample.

Lemma ascii_digits_are_decimal (c : char) :
  48 <= c <= 57 -> isdecimal ascii_digit c = true.
Proof.
  intros Hc. unfold isdecimal, ascii_digit.
  destruct (N.leb_spec 48 c), (N.leb_spec c 57); simpl; [done|lia..].
Qed.

Lemma scanner_takes_note_bak_witness :
  (forall c, 48 <= c <= 57 -> isdecimal ascii_digit c = true)
  /\ files_to_process ascii_digit [(lit "20240101_120000.note.bak", true)] ∅
     = [lit "20240101_120000.note.bak"].
Proof.
  split; [exact ascii_digits_are_decimal|].
  exact (proj2 (scanner_takes_note_bak ascii_digit ascii_digits_are_decimal)).
Defined.

(** The converter fails for [note_a] and all goes well for [note_b]: the run
    ends with exit code 0, only [note_b] is in the ledger, only the date of
    [note_b] is touched and only its document is written. *)
Example run_with_one_failure :
  let o := script ascii_digit env_a_fails git_push_fails two_notes in
  exit_code o = 0
  /\ ledger (final o) = Some (note_b ++ [LF])
  /\ elements (processed_dates_for_commit (final o)) = [lit "2024-01-02"]
  /\ map_to_list (docs (final o))
     = [(lit "2024-01-02.md",
         supernote_header_text ++ [LF] ++ lit "B" ++ [LF])]
  /\ log (final o)
     = [Processing note_a; Failed note_a ConversionError;
        Processing note_b; Converted note_b; Recognized note_b;
        Merged note_b (lit "2024-01-02.md") Created;
        LedgerRecord note_b true; Succeeded note_b]
  /\ git_events (trace o)
     = [GitRevParse; GitAdd; GitStatus;
        GitCommit (lit "Update daily notes from Supernote for dates: 2024-01-02");
        GitPush].
Proof. vm_compute. by repeat split. Qed.

(** The service answers without the text field: both files fail with a parse
    error, nothing is written and the exit code is 1. *)
Example run_without_text :
  let o := script ascii_digit env_no_text git_push_fails two_notes in
  exit_code o = 1
  /\ ledger (final o) = None
  /\ map_to_list (docs (final o)) = []
  /\ log (final o)
     = [Processing note_a; Converted note_a; Failed note_a ParseError;
        Processing note_b; Converted note_b; Failed note_b ParseError]
  /\ git_events (trace o) = [].
Proof. vm_compute. by repeat split. Qed.

(** The text of the answer cannot be encoded: the daily document of each
    file is left with the header line and without the fragment, the failure
    is logged as a parse error and nothing is recorded. *)
Example run_with_surrogate :
  let o := script ascii_digit env_surrogate git_push_fails two_notes in
  exit_code o = 1
  /\ ledger (final o) = None
  /\ docs (final o) !! lit "2024-01-01.md" = Some (supernote_header_text ++ [LF])
  /\ docs (final o) !! lit "2024-01-02.md" = Some (supernote_header_text ++ [LF])
  /\ log (final o)
     = [Processing note_a; Converted note_a; Recognized note_a;
        Failed note_a ParseError;
        Processing note_b; Converted note_b; Recognized note_b;
        Failed note_b ParseError]
  /\ git_events (trace o) = [].
Proof. vm_compute. by repeat split. Qed.

(** C6 (as stated, refuted): with SUPERNOTE_TOOL_PATH set and PATH unset the
    script ends with exit code 1 on the KeyError of line 54; the credential
    is there and not empty, the input directory is there, and there is no
    file to process. *)
Lemma exit_1_without_search_path :
  let w := no_search_path in
  let o := script ascii_digit Sample2.env_fine git_push_fails w in
  let work :=
    files_to_process ascii_digit (default [] (input_dir w))
      (load_processed_files (processed_log_file w)) in
  exit_code o = 1
  /\ trace o = [Uncaught KeyError]
  /\ ~ (credential_file w = Raise FileNotFoundError
        \/ (exists key, credential_file w = Ok key /\ GOOGLE_API_KEY key = [])
        \/ input_dir w = None
        \/ (work <> [] /\ forall f, ~ In (Succeeded f) (log (final o)))).
Proof.
  split; [done|]. split; [done|].
  intros [H|[(key & [= <-] & H)|[H|[H _]]]]; try discriminate H.
  by apply H.
Qed.

Example response_no_text_is_missing_field : missing_field response_no_text.
Proof. eapply missing_text; reflexivity. Qed.

Lemma note_a_has_a_date :
  target_of ascii_digit note_a = Some (lit "2024-01-01.md").
Proof. reflexivity. Qed.

Lemma item_failure_is_contained_witness :
  is_Some (target_of ascii_digit note_a)
  /\ convert_result (env_a_fails note_a) = Some CalledProcessError
  /\ iteration ascii_digit env_a_fails (initial_state two_notes) note_a
     = logged (initial_state two_notes)
         [Processing note_a; Failed note_a ConversionError]
  /\ post_result (env_no_service note_a) = Raise RequestException
  /\ iteration ascii_digit env_no_service (initial_state two_notes) note_a
     = logged (initial_state two_notes)
         [Processing note_a; Converted note_a; Failed note_a HttpError]
  /\ missing_field response_no_text
  /\ iteration ascii_digit env_no_text (initial_state two_notes) note_a
     = logged (initial_state two_notes)
         [Processing note_a; Converted note_a; Failed note_a ParseError].
Proof.
  assert (Ht : is_Some (target_of ascii_digit note_a)) by by eexists.
  split; [exact Ht|]. split; [reflexivity|]. split.
  { exact (proj1 (proj1 (item_failure_is_contained ascii_digit env_a_fails
                           (initial_state two_notes) note_a []) Ht) eq_refl). }
  split; [reflexivity|]. split.
  { exact (proj1 (proj2 (proj1 (item_failure_is_contained ascii_digit
                                  env_no_service (initial_state two_notes)
                                  note_a []) Ht))
             eq_refl eq_refl eq_refl). }
  split; [exact response_no_text_is_missing_field|].
  exact (proj2 (proj2 (proj2 (proj1 (item_failure_is_contained ascii_digit
                                       env_no_text (initial_state two_notes)
                                       note_a []) Ht))
                  response_no_text eq_refl eq_refl eq_refl
                  response_no_text_is_missing_field)).
Defined.

Lemma ledger_failure_still_counts_witness :
  In (Item (LedgerRecord note_a false))
     (trace (script ascii_digit env_ledger_fails git_push_fails two_notes))
  /\ In (Summary 2 (-2) 2 2 0)
       (trace (script ascii_digit env_ledger_fails git_push_fails two_notes))
  /\ exit_code (script ascii_digit env_ledger_fails git_push_fails two_notes) = 0.
Proof.
  assert (H : In (Item (LedgerRecord note_a false))
                (trace (script ascii_digit env_ledger_fails git_push_fails
                          two_notes))).
  { vm_compute. do 4 right. left. reflexivity. }
  split; [exact H|]. split; [vm_compute; auto 30|].
  exact (proj1 (proj2 (proj2 (proj2 (proj2 (proj2 (proj2 (proj2 (proj2
    (ledger_failure_still_counts ascii_digit env_ledger_fails git_push_fails
       two_notes note_a H)))))))))).
Defined.

(** In a directory that is no repository the Git step is the check and the
    warning. *)
Lemma git_once_per_run_witness :
  processed_dates_for_commit
    (final (script ascii_digit env_a_fails git_no_repository two_notes)) <> ∅
  /\ git_events (trace (script ascii_digit env_a_fails git_no_repository two_notes))
     = [GitRevParse; GitSkipWarning].
Proof.
  assert (H : processed_dates_for_commit
                (final (script ascii_digit env_a_fails git_no_repository
                          two_notes)) <> ∅).
  { apply (proj2 (proj1 (proj2 (git_once_per_run ascii_digit env_a_fails
                                   git_no_repository two_notes)))).
    exists note_b. vm_compute. auto 20. }
  split; [exact H|].
  exact (proj1 (proj2 (proj2
    (proj1 (proj2 (proj2 (git_once_per_run ascii_digit env_a_fails
                            git_no_repository two_notes))) H))) eq_refl).
Defined.

End RunFacts.
(** * Further properties *)

(** ** The response, field by field *)

Module ResponseFacts.

Import Json.

(** X4: the text is extracted exactly from a response that is an object whose
    "candidates" is a list starting with an object, whose "content" is an
    object, whose "parts" is a list starting with an object, whose "text" is
    a value that Python takes for true; only the first candidate and the
    first part are looked at. *)
Theorem extract_text_shape (j v : json) :
  extract_text j = Ok v
  <-> truthy v = true
      /\ exists m c0 cs ct p0 ps,
           j = JObj m
           /\ lookup_key (lit "candidates") m = Some (JArr (JObj c0 :: cs))
           /\ lookup_key (lit "content") c0 = Some (JObj ct)
           /\ lookup_key (lit "parts") ct = Some (JArr (JObj p0 :: ps))
           /\ lookup_key (lit "text") p0 = Some v.
Proof.
  split.
  - unfold extract_text, py_get, py_item, require.
    destruct j as [| | | |?|m]; try discriminate.
    destruct (lookup_key (lit "candidates") m) as [cands|] eqn:H1;
      cbn -[lit]; [|discriminate].
    destruct (truthy cands) eqn:T1; cbn -[lit]; [|discriminate].
    destruct cands as [| | |[|? ?]|[|c0v cs]|?]; try discriminate.
    destruct c0v as [| | | |?|c0]; try discriminate.
    cbn -[lit].
    destruct (lookup_key (lit "content") c0) as [content|] eqn:H2;
      cbn -[lit]; [|discriminate].
    destruct (truthy content) eqn:T2; cbn -[lit]; [|discriminate].
    destruct content as [| | | |?|ct]; try discriminate.
    destruct (lookup_key (lit "parts") ct) as [parts|] eqn:H3;
      cbn -[lit]; [|discriminate].
    destruct (truthy parts) eqn:T3; cbn -[lit]; [|discriminate].
    destruct parts as [| | |[|? ?]|[|p0v ps]|?]; try discriminate.
    destruct p0v as [| | | |?|p0]; try discriminate.
    cbn -[lit].
    destruct (lookup_key (lit "text") p0) as [tx|] eqn:H4;
      cbn -[lit]; [|discriminate].
    destruct (truthy tx) eqn:T4; cbn -[lit]; [|discriminate].
    intros [= <-]. split; [done|]. by exists m, c0, cs, ct, p0, ps.
  - intros (Tv & m & c0 & cs & ct & p0 & ps & -> & H1 & H2 & H3 & H4).
    unfold extract_text, py_get, py_item, require.
    rewrite H1. cbn -[lit]. rewrite H2. cbn -[lit].
    destruct ct as [|kv ct']; [discriminate H3|].
    rewrite H3. cbn -[lit]. rewrite H4. cbn -[lit]. by rewrite Tv.
Qed.

End ResponseFacts.

(** ** Merges in sequence *)

Module SequenceFacts.

Import PyStrFacts Merge MergeFacts Sequence.

(** X6: the merges of one date compose: the file after several fragments is
    the result of the first merge followed by the entries of the other
    fragments, in order; every merge after the first takes the append
    branch. *)
Theorem merge_all_appends (existing : option str) (first : str) (rest : list str) :
  merge_all existing (first :: rest)
  = Some (merge existing first ++ concat (map (fun md => entry (strip md)) rest))
  /\ case_of (Some (merge existing first)) = Appended.
Proof.
  split.
  - revert existing first. induction rest as [|x l IH]; intros doc md.
    + simpl. by rewrite app_nil_r.
    + change (merge_all doc (md :: x :: l))
        with (merge_all (Some (merge doc md)) (x :: l)).
      rewrite IH, merge_after_merge. simpl. by rewrite <- app_assoc.
  - unfold case_of, merge. by rewrite merged_has_header.
Qed.

(** X7: whatever the file and the fragment, the merged file read back
    contains the header, ends with a newline, and starts with the text the
    file had. *)
Theorem merge_leaves_section (existing : option str) (markdown_content : str) :
  contains supernote_header_text
    (universal_newlines (merge existing markdown_content)) = true
  /\ endswith [LF] (universal_newlines (merge existing markdown_content)) = true
  /\ (1 <= occurrences supernote_header_text (merge existing markdown_content))%nat
  /\ exists more, merge existing markdown_content = default [] existing ++ more.
Proof.
  split; [apply merged_has_header|]. split; [apply merged_ends_line|].
  split; [|by eexists].
  pose proof (merged_has_header existing (strip markdown_content)) as H.
  apply contains_true in H.
  rewrite occurrences_universal_newlines in H;
    [|apply header_nonempty|apply header_no_cr|apply header_no_lf].
  unfold merge. lia.
Qed.

Lemma lstrip_by_all (p : char -> bool) (s : str) :
  Forall (fun c => p c = true) s -> lstrip_by p s = [].
Proof. induction 1 as [|c s Hc _ IH]; [done|]. simpl. by rewrite Hc. Qed.

Lemma strip_whitespace (s : str) :
  Forall (fun c => isspace c = true) s -> strip s = [].
Proof.
  intros H. unfold strip, rstrip_by.
  rewrite (lstrip_by_all isspace (rev s)); [done|].
  apply Forall_forall. intros c Hc. rewrite Forall_forall in H. apply H.
  apply list_elem_of_In. apply list_elem_of_In in Hc. by apply in_rev.
Qed.

(** X8: a fragment of whitespace only writes no text: into an absent file it
    leaves the header line alone, and a file that has the header and ends
    with a newline is left as it is. *)
Theorem merge_of_blank_fragment (markdown_content : str) :
  Forall (fun c => isspace c = true) markdown_content ->
  merge None markdown_content = supernote_header_text ++ [LF]
  /\ forall raw,
       contains supernote_header_text (universal_newlines raw) = true ->
       endswith [LF] (universal_newlines raw) = true ->
       merge (Some raw) markdown_content = raw.
Proof.
  intros Hws. apply strip_whitespace in Hws.
  unfold merge, merged, written. rewrite Hws. split; [done|].
  intros raw Hh Hnl. simpl default. rewrite Hh, Hnl, andb_false_r.
  simpl. by rewrite app_nil_r.
Qed.

Lemma merge_of_blank_fragment_witness :
  Forall (fun c => isspace c = true) (lit " " ++ [LF])
  /\ merge None (lit " " ++ [LF]) = supernote_header_text ++ [LF].
Proof.
  assert (H : Forall (fun c => isspace c = true) (lit " " ++ [LF]))
    by (repeat constructor).
  split; [exact H|]. exact (proj1 (merge_of_blank_fragment _ H)).
Defined.

End SequenceFacts.

(** ** The ledger, written and read back *)

Module LedgerRoundTrip.

Import PyStrFacts Ledger LedgerFacts Sequence.

Lemma universal_newlines_app (a b : str) :
  last a <> Some CR ->
  universal_newlines (a ++ b) = universal_newlines a ++ universal_newlines b.
Proof.
  induction a as [|x|x y l IH1 IH2] using str_ind2; intros Hl.
  - done.
  - assert (x <> CR) by (intros ->; by apply Hl).
    change ([x] ++ b) with (x :: b). by rewrite !universal_newlines_cons.
  - rewrite last_cons_cons in Hl.
    destruct (N.eq_dec x CR) as [->|Hx].
    + destruct (N.eq_dec y LF) as [->|Hy].
      * change ((CR :: LF :: l) ++ b) with (CR :: LF :: l ++ b).
        rewrite !universal_newlines_crlf.
        destruct l as [|z l]; [done|].
        rewrite IH1; [done|]. by rewrite last_cons_cons in Hl.
      * change ((CR :: y :: l) ++ b) with (CR :: y :: l ++ b).
        rewrite !universal_newlines_cr by done.
        change (y :: l ++ b) with ((y :: l) ++ b). by rewrite IH2.
    + change ((x :: y :: l) ++ b) with (x :: (y :: l) ++ b).
      rewrite !universal_newlines_cons by done. by rewrite IH2.
Qed.

Lemma universal_newlines_id (s : str) :
  ~ In CR s -> universal_newlines s = s.
Proof.
  induction s as [|c s IH]; intros H; [done|].
  rewrite universal_newlines_cons by (intros ->; apply H; by left).
  rewrite IH; [done|]. intros Hin. apply H. by right.
Qed.

Lemma lines_from_line (cur a y : str) :
  lines_from cur (a ++ LF :: y) = lines_from cur (a ++ [LF]) ++ lines_from [] y.
Proof.
  revert cur. induction a as [|c a IH]; intros cur; [done|].
  simpl. destruct (c =? LF); [|apply IH]. by rewrite IH.
Qed.

Lemma lines_from_one (cur f : str) :
  ~ In LF f -> lines_from cur (f ++ [LF]) = [rev cur ++ f ++ [LF]].
Proof.
  revert cur. induction f as [|c f IH]; intros cur H.
  - done.
  - simpl. destruct (N.eqb_spec c LF) as [->|Hc]; [destruct H; by left|].
    rewrite IH by (intros Hin; apply H; by right).
    simpl. by rewrite <- app_assoc.
Qed.

(** The lines of a text that ends its last line, followed by one more line. *)
Lemma file_lines_append (text f : str) :
  text = [] \/ last text = Some LF -> ~ In LF f ->
  file_lines (text ++ f ++ [LF]) = file_lines text ++ [f ++ [LF]].
Proof.
  intros Ht Hf. unfold file_lines. destruct Ht as [->|Ht].
  - by rewrite app_nil_l, lines_from_one.
  - destruct text as [|c a _] using rev_ind; [done|].
    rewrite last_snoc in Ht. injection Ht as ->.
    rewrite <- app_assoc. change ([LF] ++ f ++ [LF]) with (LF :: f ++ [LF]).
    by rewrite lines_from_line, (lines_from_one [] f).
Qed.

Lemma no_space_not_in (f : str) (c : char) :
  no_space f -> isspace c = true -> ~ In c f.
Proof.
  intros Hf Hc Hin. unfold no_space in Hf. rewrite Forall_forall in Hf.
  apply list_elem_of_In, Hf in Hin. congruence.
Qed.

Lemma lstrip_no_space (f : str) : no_space f -> lstrip_by isspace f = f.
Proof. destruct 1 as [|c f Hc _]; [done|]. simpl. by rewrite Hc. Qed.

(** A name without whitespace is what [strip] leaves of its line. *)
Lemma strip_line (f : str) : no_space f -> strip (f ++ [LF]) = f.
Proof.
  intros Hf. unfold strip, rstrip_by. rewrite rev_app_distr. simpl.
  rewrite (lstrip_no_space (rev f)).
  - rewrite rev_involutive. by apply lstrip_no_space.
  - unfold no_space in *. apply Forall_forall. intros c Hc.
    rewrite Forall_forall in Hf. apply Hf.
    apply list_elem_of_In. apply list_elem_of_In in Hc. by apply in_rev.
Qed.

Lemma appended_well_terminated (log_file : option str) (filename : str) :
  well_terminated (appended log_file filename).
Proof. unfold appended, well_terminated. right. by rewrite app_assoc, last_snoc. Qed.

Lemma load_appended (log_file : option str) (filename : str) :
  well_terminated log_file -> no_space filename ->
  load_processed_files (appended log_file filename)
  = load_processed_files log_file ∪ {[ filename ]}.
Proof.
  intros Hlog Hname.
  assert (Hcr : ~ In CR filename) by by apply no_space_not_in.
  assert (Hlf : ~ In LF filename) by by apply no_space_not_in.
  - apply set_eq. intros x. unfold appended.
    rewrite elem_of_union, elem_of_singleton.
    unfold load_processed_files at 1. rewrite elem_of_fold_add.
    assert (Hlines :
      file_lines (universal_newlines (default [] log_file ++ filename ++ [LF]))
      = file_lines (universal_newlines (default [] log_file))
        ++ [filename ++ [LF]]).
    { rewrite universal_newlines_app.
      - rewrite (universal_newlines_id (filename ++ [LF])).
        + apply file_lines_append; [|done].
          destruct log_file as [raw|]; simpl in *; [|by left].
          destruct Hlog as [->|Hl]; [by left|right].
          apply endswith_single, endswith_universal_newlines. by left.
        + intros Hin. apply in_app_or in Hin as [Hin|[Hin|[]]]; [done|].
          discriminate Hin.
      - destruct log_file as [raw|]; simpl in *; [|done].
        destruct Hlog as [->|Hl]; [done|]. rewrite Hl. discriminate. }
    rewrite Hlines. split.
    + intros [Hin|(line & Hin & ->)]; [by apply not_elem_of_empty in Hin|].
      apply in_app_or in Hin as [Hin|[<-|[]]].
      * left. destruct log_file as [raw|]; simpl in *; [|done].
        unfold load_processed_files. apply elem_of_fold_add. right. by exists line.
      * right. by apply strip_line.
    + intros [Hin| ->]; right.
      * destruct log_file as [raw|]; simpl in Hin;
          [|by apply not_elem_of_empty in Hin].
        unfold load_processed_files in Hin. apply elem_of_fold_add in Hin
          as [Hin|(line & Hin & ->)]; [by apply not_elem_of_empty in Hin|].
        exists line. split; [|done]. apply in_or_app. by left.
      * exists (filename ++ [LF]). split; [|by rewrite strip_line].
        apply in_or_app. right. by left.
Qed.

Lemma lines_from_tail (cur f : str) :
  ~ In LF f -> f <> [] -> lines_from cur f = [rev cur ++ f].
Proof.
  revert cur. induction f as [|c f IH]; intros cur H Hne; [done|].
  simpl. destruct (N.eqb_spec c LF) as [->|Hc]; [destruct H; by left|].
  destruct f as [|c' f].
  - simpl. by destruct (rev cur ++ [c]) eqn:E; [destruct (rev cur)|].
  - rewrite IH; [|intros Hin; apply H; by right|done].
    simpl. by rewrite <- app_assoc.
Qed.

(** The lines of a text that ends its last line, followed by a line that is
    not ended. *)
Lemma file_lines_unfinished (text f : str) :
  text = [] \/ last text = Some LF -> ~ In LF f -> f <> [] ->
  file_lines (text ++ f) = file_lines text ++ [f].
Proof.
  intros Ht Hf Hne. unfold file_lines. destruct Ht as [->|Ht].
  - by rewrite app_nil_l, lines_from_tail.
  - destruct text as [|c a _] using rev_ind; [done|].
    rewrite last_snoc in Ht. injection Ht as ->.
    rewrite <- app_assoc. change ([LF] ++ f) with (LF :: f).
    by rewrite lines_from_line, (lines_from_tail [] f).
Qed.

Lemma rstrip_no_space (f : str) : no_space f -> rstrip_by isspace f = f.
Proof.
  intros Hf. unfold rstrip_by. rewrite (lstrip_no_space (rev f)).
  - apply rev_involutive.
  - unfold no_space in *. apply Forall_forall. intros c Hc.
    rewrite Forall_forall in Hf. apply Hf.
    apply list_elem_of_In. apply list_elem_of_In in Hc. by apply in_rev.
Qed.

Lemma strip_no_space (f : str) : no_space f -> strip f = f.
Proof.
  intros Hf. unfold strip. rewrite rstrip_no_space by done.
  by apply lstrip_no_space.
Qed.

(** A log whose last line is not ended loads as the lines before it and
    that line. *)
Lemma load_unfinished (pre unfinished : str) :
  well_terminated (Some pre) -> unfinished <> [] -> no_space unfinished ->
  load_processed_files (Some (pre ++ unfinished))
  = load_processed_files (Some pre) ∪ {[ unfinished ]}.
Proof.
  intros Hpre Hne Hname.
  assert (Hcr : ~ In CR unfinished) by by apply no_space_not_in.
  assert (Hlf : ~ In LF unfinished) by by apply no_space_not_in.
  assert (Hlines :
    file_lines (universal_newlines (pre ++ unfinished))
    = file_lines (universal_newlines pre) ++ [unfinished]).
  { rewrite universal_newlines_app.
    - rewrite (universal_newlines_id unfinished) by done.
      apply file_lines_unfinished; [|done|done].
      destruct Hpre as [->|Hl]; [by left|right].
      apply endswith_single, endswith_universal_newlines. by left.
    - destruct Hpre as [->|Hl]; [done|]. rewrite Hl. discriminate. }
  apply set_eq. intros x. rewrite elem_of_union, elem_of_singleton.
  unfold load_processed_files. rewrite !elem_of_fold_add, Hlines. split.
  - intros [Hin|(line & Hin & ->)]; [by apply not_elem_of_empty in Hin|].
    apply in_app_or in Hin as [Hin|[<-|[]]].
    + left. right. by exists line.
    + right. by apply strip_no_space.
  - intros [[Hin|(line & Hin & ->)]| ->]; [by left| |]; right.
    + exists line. split; [|done]. apply in_or_app. by left.
    + exists unfinished. split; [|by rewrite strip_no_space].
      apply in_or_app. right. by left.
Qed.

Lemma no_space_app (a b : str) : no_space a -> no_space b -> no_space (a ++ b).
Proof. apply Forall_app_2. Qed.

(** X9: a name without whitespace, appended to a log that is absent, empty or
    ends with a newline, is read back: the log then loads as what it loaded
    before, and the name; and the log ends with a newline again.  Appended
    to a log whose last line is not ended, the name is fused with that line:
    the log loaded as the lines before and the unfinished line, and now
    loads as the lines before and the unfinished line followed by the name,
    which is another text than the name. *)
Theorem ledger_round_trip (log_file : option str) (filename : str) :
  no_space filename ->
  well_terminated (appended log_file filename)
  /\ (well_terminated log_file ->
      load_processed_files (appended log_file filename)
      = load_processed_files log_file ∪ {[ filename ]})
  /\ (forall pre unfinished,
        log_file = Some (pre ++ unfinished) ->
        well_terminated (Some pre) ->
        unfinished <> [] -> no_space unfinished ->
        load_processed_files log_file
        = load_processed_files (Some pre) ∪ {[ unfinished ]}
        /\ load_processed_files (appended log_file filename)
           = load_processed_files (Some pre) ∪ {[ unfinished ++ filename ]}
        /\ unfinished ++ filename <> filename).
Proof.
  intros Hname. split; [apply appended_well_terminated|].
  split; [intros Hlog; by apply load_appended|].
  intros pre unfinished -> Hpre Hne Hlast.
  split; [by apply load_unfinished|]. split.
  - replace (appended (Some (pre ++ unfinished)) filename)
      with (appended (Some pre) (unfinished ++ filename)).
    + apply load_appended; [done|]. by apply no_space_app.
    + unfold appended. simpl default. by rewrite <- !app_assoc.
  - intros E. apply (f_equal length) in E. rewrite length_app in E.
    destruct unfinished; [done|]. simpl in E. lia.
Qed.

Lemma ledger_round_trip_witness :
  no_space Sample.note_a
  /\ load_processed_files (appended None Sample.note_a) = ∅ ∪ {[ Sample.note_a ]}
  /\ load_processed_files (appended (Some (lit "x")) Sample.note_a)
     = load_processed_files (Some []) ∪ {[ lit "x" ++ Sample.note_a ]}.
Proof.
  assert (H : no_space Sample.note_a) by (repeat constructor).
  split; [exact H|]. split.
  - exact (proj1 (proj2 (ledger_round_trip None Sample.note_a H)) I).
  - refine (proj1 (proj2 (proj2 (proj2 (ledger_round_trip (Some (lit "x"))
              Sample.note_a H)) [] (lit "x") eq_refl _ _ _))).
    + by left.
    + discriminate.
    + repeat constructor.
Defined.

End LedgerRoundTrip.

(** ** Whole runs *)

Module RunMore.

Import PyStrFacts Json Merge Ledger LedgerFacts Config Run RunFacts Sequence
  LedgerRoundTrip.

Section Collaborators.

Variable decimal_value : char -> option N.
Variable env : str -> item_env.
Variable git : git_env.

Local Abbreviation re_match_note := (Run.re_match_note decimal_value).
Local Abbreviation strptime_Ymd := (Run.strptime_Ymd decimal_value).
Local Abbreviation day_of := (Run.day_of decimal_value).
Local Abbreviation int_of := (Run.int_of decimal_value).
Local Abbreviation target_of := (Run.target_of decimal_value).
Local Abbreviation progress_of := (Run.progress_of decimal_value env).
Local Abbreviation after := (Run.after decimal_value env).
Local Abbreviation iteration := (Run.iteration decimal_value env).
Local Abbreviation loop := (Run.loop decimal_value env).
Local Abbreviation all_note_files_in_dir := (Run.all_note_files_in_dir decimal_value).
Local Abbreviation files_to_process := (Run.files_to_process decimal_value).
Local Abbreviation script := (Run.script decimal_value env git).
Local Abbreviation loop_invariant := (RunFacts.loop_invariant decimal_value env).
Local Abbreviation stopped_events := (RunFacts.stopped_events decimal_value env).
Local Abbreviation failure_chunk := (RunFacts.failure_chunk env).
Local Abbreviation count_loop := (RunFacts.count_loop decimal_value env).

(** The final state of a run is the initial state, or the state after the
    loop over the work list. *)
Lemma final_cases (w : world) :
  (final (script w) = initial_state w /\ trace (script w) <> [] /\
   forall e, ~ In (Item e) (trace (script w)))
  \/ exists entries,
       input_dir w = Some entries
       /\ final (script w)
          = loop (files_to_process entries
                    (load_processed_files (processed_log_file w)))
                 (initial_state w).
Proof.
  destruct (script_cases decimal_value env git w) as
    [(e & _ & ->)
    |[(why & _ & _ & ->)
     |[(entries & _ & _ & _ & ->)
      |(entries & vcs & _ & Hd & _ & _ & ->)]]].
  - left. split; [done|]. split; [done|]. by intros e' [H|[]].
  - left. split; [done|]. split; [done|]. by intros e [H|[]].
  - left. split; [done|]. split; [done|]. by intros e [H|[]].
  - right. by exists entries.
Qed.

Lemma in_work_list (entries : list (str * bool)) (already : gset str) (f : str) :
  In f (files_to_process entries already) -> In (f, true) entries.
Proof. intros H. by apply files_to_process_spec in H as [H _]. Qed.

(** *** The ledger file and the set in memory *)

Lemma ledger_inv_logged (a0 : gset str) (l0 : option str) (st : state)
    (chunk : list item_event) :
  (forall x, ~ In (LedgerRecord x true) chunk) ->
  ledger_inv a0 l0 st -> ledger_inv a0 l0 (logged st chunk).
Proof.
  intros Hc (H1 & H2 & H3 & H4). unfold ledger_inv. simpl.
  split; [done|]. split; [done|]. split; [|done].
  intros x. rewrite H3, in_app_iff. split; [tauto|].
  intros [?|[?|Hin]]; auto. by apply Hc in Hin.
Qed.

Lemma ledger_inv_after (a0 : gset str) (l0 : option str) (st : state) (f : str) :
  no_space f -> ledger_inv a0 l0 st -> ledger_inv a0 l0 (after st f).
Proof.
  intros Hf Hst. unfold Run.after.
  destruct (progress_of f) as [|events e|ymd s|ymd s] eqn:E.
  - apply ledger_inv_logged; [|done]. intros x [H|[]]. discriminate H.
  - apply ledger_inv_logged; [|done]. apply stopped_events in E.
    intros x. by apply (failure_chunk f events (classify e) E).
  - unfold write_stopped.
    change (ledger_inv a0 l0 (logged st [Processing f; Converted f;
                                         Recognized f; Failed f ParseError])).
    apply ledger_inv_logged; [|done].
    intros x Hin. simpl in Hin. intuition discriminate.
  - destruct Hst as (H1 & H2 & H3 & more & H4). unfold ledger_inv, Run.completed.
    cbn [ledger already_processed_files log].
    destruct (ledger_append_ok (env f)).
    + split; [by rewrite load_appended, H1|].
      split; [apply appended_well_terminated|]. split.
      * intros x. rewrite elem_of_union, elem_of_singleton, H3, in_app_iff.
        simpl. split.
        -- intros [[?|?]| ->]; auto 10.
        -- intros [?|[?|Hin]]; auto.
           repeat (destruct Hin as [Hin|Hin]; [try discriminate Hin|]);
             [|done]. injection Hin as ->. by right.
      * exists (more ++ f ++ [LF]). unfold appended. simpl.
        by rewrite H4, <- app_assoc.
    + split; [done|]. split; [done|]. split; [|by exists more].
      intros x. rewrite H3, in_app_iff. simpl. split; [tauto|].
      intros [?|[?|Hin]]; auto.
      repeat (destruct Hin as [Hin|Hin]; [discriminate Hin|]); done.
Qed.

Lemma ledger_inv_initial (w : world) :
  well_terminated (processed_log_file w) ->
  ledger_inv (load_processed_files (processed_log_file w))
    (processed_log_file w) (initial_state w).
Proof.
  intros H. unfold ledger_inv. simpl. split; [done|]. split; [done|].
  split; [intros x; tauto|]. exists []. by rewrite app_nil_r.
Qed.

Lemma ledger_inv_final (w : world) :
  well_terminated (processed_log_file w) ->
  (forall entries name b,
     input_dir w = Some entries -> In (name, b) entries -> no_space name) ->
  ledger_inv (load_processed_files (processed_log_file w))
    (processed_log_file w) (final (script w)).
Proof.
  intros Hlog Hnames.
  destruct (final_cases w) as [(-> & _)|(entries & Hd & ->)];
    [by apply ledger_inv_initial|].
  apply loop_invariant; [by apply ledger_inv_initial|].
  intros st f Hin. apply ledger_inv_after.
  apply (Hnames entries f true Hd). by eapply in_work_list.
Qed.

(** X10: when the log ends its last line and no name of the input directory
    has whitespace, the run keeps the log file and the set in memory in step:
    at the end the set is what the file loads as; the file ends with a
    newline and is the old file with text added at its end. *)
Theorem ledger_file_matches_memory (w : world) :
  well_terminated (processed_log_file w) ->
  (forall entries name b,
     input_dir w = Some entries -> In (name, b) entries -> no_space name) ->
  already_processed_files (final (script w))
  = load_processed_files (ledger (final (script w)))
  /\ well_terminated (ledger (final (script w)))
  /\ exists more,
       default [] (ledger (final (script w)))
       = default [] (processed_log_file w) ++ more.
Proof.
  intros Hlog Hnames.
  destruct (ledger_inv_final w Hlog Hnames) as (H1 & H2 & _ & H4).
  by repeat split.
Qed.

(** X11: under the same conditions the next run, started on the ledger and
    the documents this run has left and in the environment as it was, takes
    up exactly the files of this run's work list that no successful ledger
    record names.  When this run was ready, so that the credential, the
    directories and the search path let the next run start too, and every
    file of the work list was recorded, the next run has an empty work list:
    it finds nothing to do and ends with exit code 0. *)
Theorem next_run_retries_unrecorded (w : world) :
  well_terminated (processed_log_file w) ->
  (forall entries name b,
     input_dir w = Some entries -> In (name, b) entries -> no_space name) ->
  let o := script w in
  let work := files_to_process (default [] (input_dir w))
                (load_processed_files (processed_log_file w)) in
  let work' := files_to_process (default [] (input_dir w))
                 (load_processed_files (processed_log_file (world_after w o))) in
  (forall f, In f work'
             <-> In f work /\ ~ In (LedgerRecord f true) (log (final o)))
  /\ (ready w ->
      (forall f, In f work -> In (LedgerRecord f true) (log (final o))) ->
      work' = []
      /\ trace (script (world_after w o)) = [NothingToDo]
      /\ exit_code (script (world_after w o)) = 0).
Proof.
  intros Hlog Hnames o work work'.
  destruct (ledger_inv_final w Hlog Hnames) as (H1 & _ & H3 & _).
  fold o in H1, H3.
  assert (Hiff : forall f, In f work'
            <-> In f work /\ ~ In (LedgerRecord f true) (log (final o))).
  { intros f. subst work work'. unfold world_after. cbn [processed_log_file].
    rewrite <- H1, !files_to_process_spec, H3. tauto. }
  split; [done|]. intros Hready Hall.
  assert (Hnil : work' = []).
  { clearbody work'. destruct work' as [|f l]; [done|].
    destruct (proj1 (Hiff f) (or_introl eq_refl)) as [Hin Hno].
    by apply Hall in Hin. }
  split; [done|].
  assert (Hready' : ready (world_after w o)) by exact Hready.
  destruct (script_cases decimal_value env git (world_after w o)) as
    [(e & He & _)
    |[(why & _ & Hw & _)
     |[(entries & _ & _ & _ & ->)
      |(entries & vcs & _ & Hd & Hne & _)]]].
  - by destruct (ready_not_escapes _ e Hready').
  - destruct Hready' as (_ & (k & Hc' & Hk') & Hd' & _).
    destruct Hw as [[_ Hc]|[(_ & key & Hc & Hk)|(_ & _ & Hd)]]; congruence.
  - done.
  - exfalso. apply Hne. cbn [world_after input_dir processed_log_file] in *.
    subst work'. rewrite Hd in Hnil. exact Hnil.
Qed.


(** *** The documents *)

Lemma contains_header_app (text more : str) :
  contains supernote_header_text (universal_newlines text) = true ->
  contains supernote_header_text (universal_newlines (text ++ more)) = true.
Proof.
  rewrite !contains_occurrences, !occurrences_universal_newlines
    by first [apply MergeFacts.header_nonempty | apply MergeFacts.header_no_cr
             | apply MergeFacts.header_no_lf].
  rewrite <- !contains_occurrences, !contains_spec.
  intros (a & b & ->). exists a, (b ++ more). by rewrite <- !app_assoc.
Qed.

Lemma docs_inv_logged (d0 : gmap str str) (st : state) (chunk : list item_event) :
  docs_inv decimal_value d0 st -> docs_inv decimal_value d0 (logged st chunk).
Proof.
  intros (H1 & H2 & H3). split; [done|]. split; [|done].
  intros md Hdiff. destruct (H2 md Hdiff) as (f & Hr & Ht & Hor).
  exists f. cbn [log logged]. split; [apply in_or_app; by left|].
  split; [done|]. destruct Hor as [?|?]; [by left|right].
  apply in_or_app. by left.
Qed.

Lemma docs_inv_after (d0 : gmap str str) (st : state) (f : str) :
  docs_inv decimal_value d0 st -> docs_inv decimal_value d0 (after st f).
Proof.
  intros Hst. unfold Run.after.
  pose proof (progress_target decimal_value env f) as Htarget.
  destruct (progress_of f) as [|events e|ymd s|ymd s];
    [by apply docs_inv_logged|by apply docs_inv_logged| |].
  - destruct Hst as (H1 & H2 & H3). unfold docs_inv, write_stopped.
    cbn [docs processed_dates_for_commit log set_docs logged].
    set (md := ymd ++ lit ".md") in *.
    split; [|split].
    + intros md' raw Hraw. destruct (H1 md' raw Hraw) as [more Hmore].
      destruct (decide (md = md')) as [<-|Hne].
      * rewrite lookup_insert_eq, Hmore. simpl default.
        exists (more ++ preamble (Some (raw ++ more))). by rewrite app_assoc.
      * rewrite lookup_insert_ne by done. by exists more.
    + intros md' Hdiff. destruct (decide (md = md')) as [<-|Hne].
      * exists f. split; [apply in_or_app; right; simpl; auto|].
        split; [done|]. right. apply in_or_app. right. simpl. auto.
      * rewrite lookup_insert_ne in Hdiff by done.
        destruct (H2 md' Hdiff) as (g & Hr & Ht & Hor).
        exists g. split; [apply in_or_app; by left|]. split; [done|].
        destruct Hor as [?|?]; [by left|right]. apply in_or_app. by left.
    + intros ymd' Hin. destruct (H3 ymd' Hin) as (text & Htext & Hh).
      destruct (decide (md = ymd' ++ lit ".md")) as [E|Hne].
      * rewrite <- E in *. rewrite lookup_insert_eq, Htext. simpl default.
        eexists. split; [done|]. by apply contains_header_app.
      * rewrite lookup_insert_ne by done. by exists text.
  - destruct Hst as (H1 & H2 & H3). unfold docs_inv, Run.completed.
    cbn [docs processed_dates_for_commit log].
    set (md := ymd ++ lit ".md") in *.
    split; [|split].
    + intros md' raw Hraw. destruct (H1 md' raw Hraw) as [more Hmore].
      destruct (decide (md = md')) as [<-|Hne].
      * rewrite lookup_insert_eq, Hmore. unfold merged. simpl default.
        exists (more ++ written (Some (raw ++ more)) s). by rewrite app_assoc.
      * rewrite lookup_insert_ne by done. by exists more.
    + intros md' Hdiff. destruct (decide (md = md')) as [<-|Hne].
      * exists f. split; [apply in_or_app; right; simpl; auto|].
        split; [done|]. left. exists ymd. split; [|done].
        by apply elem_of_union_r, elem_of_singleton.
      * rewrite lookup_insert_ne in Hdiff by done.
        destruct (H2 md' Hdiff) as (g & Hr & Ht & Hor).
        exists g. split; [apply in_or_app; by left|]. split; [done|].
        destruct Hor as [(ymd' & Hin & ->)|?].
        -- left. exists ymd'. split; [by apply elem_of_union_l|done].
        -- right. apply in_or_app. by left.
    + intros ymd' Hin.
      destruct (decide (md = ymd' ++ lit ".md")) as [E|Hne].
      * rewrite <- E, lookup_insert_eq. eexists. split; [done|].
        apply MergeFacts.merged_has_header.
      * rewrite lookup_insert_ne by done. apply H3.
        apply elem_of_union in Hin as [Hin|Hin]; [done|].
        apply elem_of_singleton in Hin as ->. by destruct Hne.
Qed.

Lemma docs_inv_initial (w : world) :
  docs_inv decimal_value (documents w) (initial_state w).
Proof.
  unfold docs_inv. simpl. split; [|split].
  - intros md raw H. exists []. by rewrite app_nil_r.
  - by intros md H.
  - intros ymd H. by apply not_elem_of_empty in H.
Qed.

(** X12: a run only extends documents: a document that was there is there at
    the end with text added at its end.  A document that differs from what
    it was is the daily document of a file whose text was recognized in this
    run, and it is the document of a touched date unless the file failed
    with a parse error, which is how a write that cannot be encoded ends:
    files that fail before the merge change no document.  Every touched date
    has a document that contains the section header. *)
Theorem documents_only_grow (w : world) :
  let st := final (script w) in
  (forall md raw, documents w !! md = Some raw ->
     exists more, docs st !! md = Some (raw ++ more))
  /\ (forall md, docs st !! md <> documents w !! md ->
        exists filename,
          In (Recognized filename) (log st)
          /\ target_of filename = Some md
          /\ ((exists ymd, ymd ∈ processed_dates_for_commit st
                           /\ md = ymd ++ lit ".md")
              \/ In (Failed filename ParseError) (log st)))
  /\ (forall ymd, ymd ∈ processed_dates_for_commit st ->
        exists text, docs st !! (ymd ++ lit ".md") = Some text
                     /\ contains supernote_header_text (universal_newlines text)
                        = true).
Proof.
  intros st. subst st.
  destruct (final_cases w) as [(-> & _)|(entries & Hd & ->)];
    [apply docs_inv_initial|].
  apply (loop_invariant (docs_inv decimal_value (documents w)));
    [apply docs_inv_initial|].
  intros st f _. apply docs_inv_after.
Qed.

(** *** The counters *)

Lemma existsb_filter_length {A} (p : A -> bool) (l : list A) :
  existsb p l = true <-> (0 < length (List.filter p l))%nat.
Proof.
  induction l as [|x l IH]; simpl; [split; [done|lia]|].
  destruct (p x); simpl; [split; [lia|done]|exact IH].
Qed.

Lemma finished_in_trace (v v' : verdict) (l : list item_event) (vcs : list event)
    (gs : list git_event) (summary : event) :
  vcs = [NoGit] \/ vcs = map Git gs ->
  (forall u, summary <> Finished u) ->
  In (Finished v) (map Item l ++ vcs ++ [summary; Finished v']) -> v = v'.
Proof.
  intros Hv Hs Hin. rewrite !in_app_iff, in_map_iff in Hin.
  destruct Hin as [(x & Hx & _)|[Hin|[Hin|[Hin|[]]]]]; [done| | |congruence].
  - destruct Hv as [->| ->]; [by destruct Hin as [|[]]|].
    by apply in_map_iff in Hin as (g & Hg & _).
  - by apply Hs in Hin.
Qed.

(** X13: in a run that reaches its verdict, the counter of processed files is
    the number of files of the work list whose body ran to its end, at most
    the number attempted; the touched dates are the dates of those files;
    and the verdict tells none, some or all of them. *)
Theorem run_accounting (w : world) (v : verdict) :
  In (Finished v) (trace (script w)) ->
  let st := final (script w) in
  let work := files_to_process (default [] (input_dir w))
                (load_processed_files (processed_log_file w)) in
  let finished := List.filter (fun f => is_completed (progress_of f)) work in
  newly_processed_count st = length finished
  /\ (length finished <= length work)%nat
  /\ processed_dates_for_commit st
     = list_to_set (omap (fun f => date_of (progress_of f)) work)
  /\ (v = FinishedWithErrors <-> length finished = 0%nat)
  /\ (v = FinishedPartial
      <-> (0 < length finished)%nat /\ (length finished < length work)%nat)
  /\ (v = FinishedOk <-> length finished = length work).
Proof.
  intros Hin st work finished. subst st work finished. revert Hin.
  destruct (script_cases decimal_value env git w) as
    [(e & _ & ->)
    |[(why & _ & _ & ->)
     |[(entries & _ & _ & _ & ->)
      |(entries & vcs & _ & Hd & Hne & Hv & ->)]]];
    cbn [trace final stop uncaught];
    [by intros [|[]] | by intros [|[]] | by intros [|[]] |].
  rewrite Hd. simpl default.
  set (files := files_to_process entries _) in *.
  set (st := loop files (initial_state w)) in *.
  intros Hin.
  assert (v = verdict_of st files) as ->.
  { eapply finished_in_trace; [| |exact Hin].
    - rewrite Hv. destruct (bool_decide _); [by left|by right].
    - done. }
  destruct (count_loop files (initial_state w)) as (Hc & Hdates & Hany).
  fold st in Hc, Hdates, Hany. simpl in Hc, Hdates, Hany.
  rewrite union_empty_l_L in Hdates.
  pose proof (List.filter_length_le (fun f => is_completed (progress_of f)) files)
    as Hle.
  pose proof (existsb_filter_length
                (fun f => is_completed (progress_of f)) files) as Hex.
  split; [done|]. split; [done|]. split; [done|].
  unfold verdict_of. rewrite Hany, Hc.
  assert (Hn : nonempty files = true) by by apply nonempty_true.
  rewrite Hn, !andb_true_r.
  set (n := length (List.filter (fun f => is_completed (progress_of f)) files))
    in *.
  destruct (existsb _ files) eqn:Eb; cbn [negb].
  - assert (0 < n)%nat by by apply Hex.
    destruct (Nat.ltb_spec n (length files)); (split; [|split]);
      split; intros; try done; try lia.
  - assert (n = 0%nat).
    { destruct n; [done|]. assert (false = true); [apply Hex; lia|done]. }
    assert (length files <> 0%nat) by (by destruct files).
    (split; [|split]); split; intros; try done; try lia.
Qed.


(** *** Dates *)

Lemma strptime_raises (s : str) (e : exn) :
  strptime_Ymd s = Raise e -> e = ValueError.
Proof.
  unfold Run.strptime_Ymd. intros H. repeat case_match; congruence.
Qed.

Lemma ascii_digit_range (c : char) :
  48 <= c <= 57 -> ascii_digit c = Some (c - 48).
Proof.
  intros Hc. unfold ascii_digit.
  destruct (N.leb_spec 48 c), (N.leb_spec c 57); simpl; [done|lia..].
Qed.

Lemma days_in_month_le (y m : N) : days_in_month y m <= 31.
Proof. unfold days_in_month. repeat case_match; lia. Qed.

Lemma four_digits_digits (a b c d : N) :
  a <= 9 -> b <= 9 -> c <= 9 -> d <= 9 ->
  four_digits (1000 * a + 100 * b + 10 * c + d) = [48 + a; 48 + b; 48 + c; 48 + d].
Proof.
  intros. unfold four_digits.
  repeat f_equal; zify; Z.to_euclidean_division_equations; lia.
Qed.

Lemma two_digits_digits (e f : N) :
  e <= 9 -> f <= 9 -> two_digits (10 * e + f) = [48 + e; 48 + f].
Proof.
  intros. unfold two_digits.
  repeat f_equal; zify; Z.to_euclidean_division_equations; lia.
Qed.

Lemma year_digits_four (y : N) : 1000 <= y -> year_digits y = four_digits y.
Proof.
  intros Hy. unfold year_digits.
  destruct (N.ltb_spec y 10), (N.ltb_spec y 100), (N.ltb_spec y 1000);
    (done || lia).
Qed.

(** A month that [strptime] reads is made of two ASCII digits and lies
    between 1 and 12. *)
Lemma month_of_value (m1 m2 m : N) :
  month_of m1 m2 = Some m ->
  48 <= m1 <= 57 /\ 48 <= m2 <= 57 /\ m = 10 * (m1 - 48) + (m2 - 48)
  /\ 1 <= m <= 12.
Proof.
  unfold month_of.
  destruct (N.eqb_spec m1 49), (N.eqb_spec m1 48), (N.leb_spec 48 m2),
    (N.leb_spec m2 50), (N.leb_spec 49 m2), (N.leb_spec m2 57);
    cbn [andb]; intros [= <-]; lia.
Qed.

(** The three shapes of a day that [strptime] reads. *)
Lemma day_of_value (d1 d2 dd : N) :
  day_of d1 d2 = Some dd ->
  (d1 = 51 /\ 48 <= d2 <= 49 /\ dd = 30 + (d2 - 48))
  \/ ((d1 = 49 \/ d1 = 50)
      /\ exists v, decimal_value d2 = Some v /\ dd = 10 * (d1 - 48) + v)
  \/ ((d1 = 48 \/ d1 = 32) /\ 49 <= d2 <= 57 /\ dd = d2 - 48).
Proof.
  unfold Run.day_of.
  destruct (N.eqb_spec d1 51), (N.eqb_spec d1 49), (N.eqb_spec d1 50),
    (N.eqb_spec d1 48), (N.eqb_spec d1 32), (N.leb_spec 48 d2),
    (N.leb_spec d2 49), (N.leb_spec 49 d2), (N.leb_spec d2 57);
    cbn [andb orb]; try lia;
    try (intros [= <-]; by auto);
    try (destruct (decimal_value d2) as [v|]; intros [= <-]; eauto 10).
Qed.

Lemma calendar_date_true (y m d : N) :
  calendar_date y m d = true
  <-> 1 <= y <= 9999 /\ 1 <= m <= 12 /\ 1 <= d <= days_in_month y m.
Proof.
  unfold calendar_date. rewrite !andb_true_iff, !N.leb_le. tauto.
Qed.

(** X2: for a date part of eight ASCII digits that [strptime] accepts, the
    date is a calendar date (month 1 to 12, day 1 to the length of the month,
    year 1 to 9999), and from year 1000 on the formatted date is the digits
    again, with dashes: YYYY-MM-DD. *)
Theorem parsed_date_formats_back (s : str) (d : date) :
  (forall c, 48 <= c <= 57 -> decimal_value c = Some (c - 48)) ->
  Forall (fun c => 48 <= c <= 57) s ->
  strptime_Ymd s = Ok d ->
  length s = 8%nat
  /\ 1 <= year d <= 9999
  /\ 1 <= month d <= 12
  /\ 1 <= day d <= days_in_month (year d) (month d)
  /\ days_in_month (year d) (month d) <= 31
  /\ (1000 <= year d ->
      ymd_string d
      = take 4 s ++ lit "-" ++ take 2 (drop 4 s) ++ lit "-" ++ drop 6 s).
Proof.
  intros Htab Hs Hparse. unfold Run.strptime_Ymd in Hparse.
  destruct s as [|y1 [|y2 [|y3 [|y4 [|m1 [|m2 [|d1 [|d2 [|? ?]]]]]]]]];
    try discriminate Hparse.
  repeat match goal with
         | H : Forall _ (_ :: _) |- _ => apply Forall_cons in H as [? H]
         end.
  rewrite !Htab in Hparse by done.
  destruct (month_of m1 m2) as [m|] eqn:Hm; [|discriminate Hparse].
  destruct (day_of d1 d2) as [dd|] eqn:Hd; [|discriminate Hparse].
  cbv zeta in Hparse.
  destruct (calendar_date _ m dd) eqn:Hc in Hparse; [|discriminate Hparse].
  injection Hparse as <-. cbn [year month day].
  apply calendar_date_true in Hc as (Hy & Hmm & Hdd).
  apply month_of_value in Hm as (_ & _ & -> & _).
  assert (dd = 10 * (d1 - 48) + (d2 - 48)) as ->.
  { apply day_of_value in Hd
      as [(-> & ? & ->)|[(Hd1 & v & Hv & ->)|([->| ->] & ? & ->)]]; try lia.
    rewrite Htab in Hv by done. injection Hv as <-. done. }
  split; [done|]. split; [lia|]. split; [lia|]. split; [lia|].
  split; [apply days_in_month_le|]. intros Hbig.
  unfold ymd_string. cbn [year month day].
  rewrite year_digits_four, four_digits_digits, !two_digits_digits by lia.
  cbn [take drop app lit]. repeat f_equal; lia.
Qed.

Lemma int_of_two (a b : N) (x y : N) :
  decimal_value a = Some x -> decimal_value b = Some y ->
  int_of [a; b] = Some (10 * x + y).
Proof.
  intros Ha Hb. unfold Run.int_of. cbn [fold_left]. rewrite Ha, Hb.
  f_equal; lia.
Qed.

(** What [strptime] makes of a date part of decimal digits: the numbers
    that [int] reads in its three fields, which form a calendar date. *)
Lemma strptime_values (s : str) (date : date) :
  (forall c, c < 128 -> decimal_value c = ascii_digit c) ->
  forallb (isdecimal decimal_value) s = true ->
  strptime_Ymd s = Ok date ->
  int_of (take 4 s) = Some (year date)
  /\ int_of (take 2 (drop 4 s)) = Some (month date)
  /\ int_of (drop 6 s) = Some (day date)
  /\ calendar_date (year date) (month date) (day date) = true.
Proof.
  intros Htab Hs Hparse. unfold Run.strptime_Ymd in Hparse.
  destruct s as [|y1 [|y2 [|y3 [|y4 [|m1 [|m2 [|d1 [|d2 [|? ?]]]]]]]]];
    try discriminate Hparse.
  assert (Hascii : forall c, 48 <= c <= 57 -> decimal_value c = Some (c - 48)).
  { intros c Hc. rewrite Htab by lia. by apply ascii_digit_range. }
  assert (Hd1 : is_Some (decimal_value d1)).
  { cbn [forallb] in Hs. repeat (apply andb_true_iff in Hs as [? Hs]).
    unfold Run.isdecimal in *. by destruct (decimal_value d1). }
  destruct (decimal_value y1) as [a|] eqn:E1; [|discriminate Hparse].
  destruct (decimal_value y2) as [b|] eqn:E2; [|discriminate Hparse].
  destruct (decimal_value y3) as [c|] eqn:E3; [|discriminate Hparse].
  destruct (decimal_value y4) as [d|] eqn:E4; [|discriminate Hparse].
  destruct (month_of m1 m2) as [m|] eqn:Hm; [|discriminate Hparse].
  destruct (day_of d1 d2) as [dd|] eqn:Hd; [|discriminate Hparse].
  cbv zeta in Hparse.
  destruct (calendar_date _ m dd) eqn:Hc in Hparse; [|discriminate Hparse].
  injection Hparse as <-. cbn [year month day take drop].
  split; [|split; [|split; [|done]]].
  - unfold Run.int_of. cbn [fold_left]. rewrite E1, E2, E3, E4. f_equal. lia.
  - apply month_of_value in Hm as (? & ? & -> & _).
    apply int_of_two; by apply Hascii.
  - apply day_of_value in Hd
      as [(-> & ? & ->)|[(Hd' & v & Hv & ->)|([->| ->] & ? & ->)]].
    + rewrite (int_of_two 51 d2 3 (d2 - 48)); [done| |];
        rewrite Hascii by lia; f_equal.
    + apply int_of_two; [|done]. destruct Hd' as [->| ->]; by rewrite Hascii by lia.
    + rewrite (int_of_two 48 d2 0 (d2 - 48)); [done| |];
        rewrite Hascii by lia; f_equal.
    + destruct Hd1 as [v Hv]. rewrite Htab in Hv by lia. discriminate Hv.
Qed.

(** X3: a file whose name matches the pattern and whose date part, read as
    the three numbers of its digits, is no calendar date makes [strptime]
    raise ValueError: the iteration logs a parse error before the converter
    is called, and changes nothing else. *)
Theorem impossible_date_is_rejected (st : state) (filename d t : str)
    (y m dd : N) :
  (forall c, c < 128 -> decimal_value c = ascii_digit c) ->
  re_match_note filename = Some (d, t) ->
  int_of (take 4 d) = Some y ->
  int_of (take 2 (drop 4 d)) = Some m ->
  int_of (drop 6 d) = Some dd ->
  calendar_date y m dd = false ->
  strptime_Ymd d = Raise ValueError
  /\ iteration st filename
     = logged st [Processing filename; Failed filename ParseError].
Proof.
  intros Htab Hm Hy Hmo Hd Hbad.
  assert (Hdec : forallb (isdecimal decimal_value) d = true).
  { by apply re_match_note_prefix in Hm as (_ & _ & ? & _). }
  destruct (strptime_Ymd d) as [date|e] eqn:Hp.
  { destruct (strptime_values d date Htab Hdec Hp) as (Hy' & Hmo' & Hd' & Hc).
    congruence. }
  apply strptime_raises in Hp as He. subst e. split; [done|].
  rewrite iteration_after. unfold Run.after, Run.progress_of.
  by rewrite Hm, Hp.
Qed.

(** X5: a text field that is not a string (a number, a list) passes the
    check of the response when Python takes it for true; the body then
    reports the text as extracted and fails at [strip] with an error of no
    expected class: nothing is merged and nothing is recorded. *)
Theorem text_that_is_no_string (st : state) (filename d t : str) (date : date)
    (j v : json) :
  re_match_note filename = Some (d, t) ->
  strptime_Ymd d = Ok date ->
  convert_result (env filename) = None ->
  pdf_read_result (env filename) = None ->
  post_result (env filename) = Ok j ->
  extract_text j = Ok v ->
  is_string v = false ->
  iteration st filename
  = logged st [Processing filename; Converted filename; Recognized filename;
               Failed filename UnexpectedError].
Proof.
  intros Hm Hd Hc Hp Hr Hx Hv.
  rewrite iteration_after. unfold Run.after, Run.progress_of.
  rewrite Hm, Hd, Hc, Hp, Hr, Hx. by destruct v.
Qed.


(** X17: a fragment with a code point that UTF-8 does not encode reaches
    the writes of the merge and stops them at the entry: the daily document
    is left with what the branch wrote before the entry, which for a
    document that was not there is the header line alone; the failure is
    logged as a parse error, and nothing is recorded, counted or touched. *)
Theorem fragment_that_cannot_be_encoded (st : state) (filename d t : str)
    (date : date) (j : json) (text : str) :
  re_match_note filename = Some (d, t) ->
  strptime_Ymd d = Ok date ->
  convert_result (env filename) = None ->
  pdf_read_result (env filename) = None ->
  post_result (env filename) = Ok j ->
  extract_text j = Ok (JStr text) ->
  merge_io_result (env filename) = None ->
  encodable (strip text) = false ->
  let md := ymd_string date ++ lit ".md" in
  iteration st filename
  = set_docs
      (<[ md := default [] (docs st !! md) ++ preamble (docs st !! md) ]> (docs st))
      (logged st [Processing filename; Converted filename; Recognized filename;
                  Failed filename ParseError])
  /\ (docs st !! md = None ->
      docs (iteration st filename) !! md = Some (supernote_header_text ++ [LF]))
  /\ (forall raw, docs st !! md = Some raw ->
      exists before,
        docs (iteration st filename) !! md = Some (raw ++ before)
        /\ forall markdown_content,
             merge (Some raw) markdown_content
             = raw ++ before ++ Merge.entry (strip markdown_content)).
Proof.
  intros Hm Hd Hc Hp Hr Hx Hio Henc md.
  assert (Hit : iteration st filename
    = set_docs
        (<[ md := default [] (docs st !! md) ++ preamble (docs st !! md) ]>
           (docs st))
        (logged st [Processing filename; Converted filename;
                    Recognized filename; Failed filename ParseError])).
  { rewrite iteration_after. unfold Run.after, Run.progress_of.
    rewrite Hm, Hd, Hc, Hp, Hr, Hx. cbn [py_strip]. by rewrite Hio, Henc. }
  split; [done|]. rewrite Hit. cbn [docs set_docs].
  rewrite lookup_insert_eq. split.
  - by intros ->.
  - intros raw ->. simpl default. eexists. split; [done|].
    intros markdown_content. unfold merge, merged.
    by rewrite MergeFacts.written_preamble.
Qed.

(** *** The work list *)

Lemma sublist_bool_filter {A} (p : A -> bool) (l : list A) :
  List.filter p l `sublist_of` l.
Proof.
  induction l as [|x l IH]; simpl; [constructor|].
  destruct (p x); by constructor.
Qed.

Lemma sublist_map {A B} (f : A -> B) (l k : list A) :
  l `sublist_of` k -> map f l `sublist_of` map f k.
Proof. induction 1; simpl; by constructor. Qed.

(** X1: the work list is made of the names of the regular files of the
    directory that are not in the ledger and that start with eight decimal
    digits, an underscore, six decimal digits and ".note", whatever follows;
    it keeps the order of the listing, and has no name twice when the
    listing has none twice. *)
Theorem work_list_characterised (entries : list (str * bool)) (already : gset str) :
  let work := files_to_process entries already in
  (forall name,
     In name work
     <-> In (name, true) entries /\ (name ∉ already)
         /\ exists d t rest,
              name = d ++ lit "_" ++ t ++ lit ".note" ++ rest
              /\ length d = 8%nat /\ length t = 6%nat
              /\ forallb (isdecimal decimal_value) d = true
              /\ forallb (isdecimal decimal_value) t = true)
  /\ work `sublist_of` map fst entries
  /\ (NoDup (map fst entries) -> NoDup work).
Proof.
  intros work.
  assert (Hsub : work `sublist_of` map fst entries).
  { subst work. unfold Run.files_to_process, Run.all_note_files_in_dir.
    etrans; [apply sublist_bool_filter|].
    apply sublist_map, sublist_bool_filter. }
  split; [|split; [done|]].
  - intros name. subst work. rewrite files_to_process_spec. split.
    + intros (Hin & [[d t] Hm] & Hout).
      apply re_match_note_prefix in Hm as (Hd & Ht & Hdd & Htd & rest & ->).
      split; [done|]. split; [done|]. by exists d, t, rest.
    + intros (Hin & Hout & d & t & rest & -> & Hd & Ht & Hdd & Htd).
      split; [done|]. split; [|done]. exists (d, t).
      apply re_match_note_prefix. repeat (split; [done|]). by exists rest.
  - intros Hnd. by eapply sublist_NoDup.
Qed.

(** *** Git *)

Ltac in_cases H :=
  simpl in H;
  repeat (destruct H as [H|H]; [try discriminate H|]);
  try (destruct H).

Ltac gated :=
  intros;
  repeat match goal with H : In _ _ |- _ => in_cases H end;
  repeat match goal with |- _ /\ _ => split end;
  try done;
  try (by (simpl; eauto 10));
  try (by (eexists; simpl; eauto 10));
  try (by (let H := fresh in intros ? H; in_cases H)).

(** X14: the Git commands of a run are gated one by the other: the first is
    the check of the work tree; [git add] runs only when the check printed
    true; [git status] only after an add that succeeded; a commit only when
    the status shows changes, and otherwise the notice that nothing is to be
    committed; a push only after a commit that succeeded; the warning only
    when the check failed. *)
Theorem git_steps_are_gated (w : world) :
  let gs := git_events (trace (script w)) in
  (gs <> [] -> head gs = Some GitRevParse)
  /\ (In GitAdd gs -> rev_parse git = RevParseTrue)
  /\ (In GitStatus gs -> add_ok git = true /\ In GitAdd gs)
  /\ (forall m, In (GitCommit m) gs ->
        status_dirty git = true /\ In GitStatus gs)
  /\ (In GitNothingToCommit gs ->
      status_dirty git = false /\ In GitStatus gs
      /\ forall m, ~ In (GitCommit m) gs)
  /\ (In GitPush gs -> commit_ok git = true /\ exists m, In (GitCommit m) gs)
  /\ (In GitSkipWarning gs -> rev_parse git = RevParseFailed)
  /\ (rev_parse git = RevParseOther -> gs = [] \/ gs = [GitRevParse]).
Proof.
  intros gs. subst gs.
  destruct (script_git_events decimal_value env git w) as [[_ ->]|(_ & _ & ->)].
  - split_and!; gated.
  - unfold git_operations.
    destruct (rev_parse git), (add_ok git), (status_dirty git), (commit_ok git);
      split_and!; gated.
Qed.

Lemma str_leb_total (a b : str) : str_leb a b = true \/ str_leb b a = true.
Proof.
  revert b. induction a as [|x a IH]; intros b; [by left|].
  destruct b as [|y b]; [by right|]. simpl.
  destruct (N.ltb_spec x y); [by left|].
  destruct (N.ltb_spec y x); [by right|].
  assert (x = y) as -> by lia. rewrite N.eqb_refl. simpl. apply IH.
Qed.

(** X15: the message of the commit is the fixed text followed by the touched
    dates, separated by ", ", each date once and in ascending order of the
    strings. *)
Theorem commit_message_sorted (dates : gset str) :
  exists l,
    commit_message dates
    = lit "Update daily notes from Supernote for dates: " ++ join (lit ", ") l
    /\ Sorted (fun a b => Is_true (str_leb a b)) l
    /\ NoDup l
    /\ forall d, In d l <-> d ∈ dates.
Proof.
  exists (merge_sort (fun a b => Is_true (str_leb a b)) (elements dates)).
  split; [done|]. split; [|split].
  - apply Sorted_merge_sort. intros a b.
    destruct (str_leb_total a b) as [H|H]; [left|right]; by apply Is_true_true.
  - rewrite merge_sort_Permutation. apply NoDup_elements.
  - intros d. rewrite <- list_elem_of_In, merge_sort_Permutation.
    apply elem_of_elements.
Qed.

End Collaborators.

(** ** The search path *)

Section Path.

Import Config.

(** X16: when the tool directory is unset or empty the search path is left
    alone, even unset; otherwise an unset search path raises KeyError, and a
    set one comes out containing the tool directory, either unchanged or
    with the directory and a colon in front; configuring a second time
    changes nothing. *)
Theorem configure_path_once (tool_path : option str) (path : option str) :
  (tool_path = None \/ tool_path = Some [] ->
   configure_path tool_path path = Ok path)
  /\ (forall tool, tool_path = Some tool -> tool <> [] ->
      match path with
      | None => configure_path tool_path path = Raise KeyError
      | Some p =>
          exists p',
            configure_path tool_path path = Ok (Some p')
            /\ contains tool p' = true
            /\ (p' = p \/ p' = tool ++ lit ":" ++ p)
            /\ configure_path tool_path (Some p') = Ok (Some p')
      end).
Proof.
  split.
  - by intros [->| ->].
  - intros tool -> Hne. destruct tool as [|c tool]; [done|].
    destruct path as [p|]; [|done]. unfold configure_path.
    destruct (contains (c :: tool) p) eqn:Hc; cbn [negb].
    + exists p. rewrite Hc. split; [done|]. split; [done|]. by split; [left|].
    + exists ((c :: tool) ++ lit ":" ++ p).
      assert (Hin : contains (c :: tool) ((c :: tool) ++ lit ":" ++ p) = true).
      { apply (contains_app (c :: tool) [] (lit ":" ++ p)). }
      rewrite Hin. split; [done|]. split; [done|]. split; [by right|done].
Qed.

End Path.

(** *** Sample runs *)

Import Sample Sample2.

Lemma sample_names_have_no_space (entries : list (str * bool)) (name : str)
    (b : bool) :
  input_dir two_notes = Some entries -> In (name, b) entries -> no_space name.
Proof.
  intros [= <-] [[= <- _]|[[= <- _]|[]]]; repeat constructor.
Qed.

Lemma ledger_file_matches_memory_witness :
  well_terminated (processed_log_file two_notes)
  /\ (forall entries name b,
        input_dir two_notes = Some entries -> In (name, b) entries ->
        no_space name)
  /\ already_processed_files
       (final (script ascii_digit env_fine git_push_fails two_notes))
     = load_processed_files
         (ledger (final (script ascii_digit env_fine git_push_fails two_notes))).
Proof.
  split; [exact I|]. split; [exact sample_names_have_no_space|].
  exact (proj1 (ledger_file_matches_memory ascii_digit env_fine git_push_fails
                  two_notes I sample_names_have_no_space)).
Defined.

Lemma two_notes_is_ready : ready two_notes.
Proof.
  split; [by eexists|]. split; [|by repeat split].
  eexists. split; [reflexivity|]. by vm_compute.
Qed.

Lemma next_run_retries_unrecorded_witness :
  well_terminated (processed_log_file two_notes)
  /\ (forall entries name b,
        input_dir two_notes = Some entries -> In (name, b) entries ->
        no_space name)
  /\ ready two_notes
  /\ (forall f,
        In f (files_to_process ascii_digit (default [] (input_dir two_notes))
                (load_processed_files (processed_log_file two_notes))) ->
        In (LedgerRecord f true)
           (log (final (script ascii_digit env_fine git_push_fails two_notes))))
  /\ trace (script ascii_digit env_fine git_push_fails
              (world_after two_notes
                 (script ascii_digit env_fine git_push_fails two_notes)))
     = [NothingToDo].
Proof.
  assert (Hall : forall f,
    In f (files_to_process ascii_digit (default [] (input_dir two_notes))
            (load_processed_files (processed_log_file two_notes))) ->
    In (LedgerRecord f true)
       (log (final (script ascii_digit env_fine git_push_fails two_notes)))).
  { intros f Hin. vm_compute in Hin. destruct Hin as [<-|[<-|[]]];
      vm_compute; auto 20. }
  split; [exact I|]. split; [exact sample_names_have_no_space|].
  split; [exact two_notes_is_ready|]. split; [exact Hall|].
  exact (proj1 (proj2 (proj2 (next_run_retries_unrecorded ascii_digit env_fine
                  git_push_fails two_notes I sample_names_have_no_space)
                  two_notes_is_ready Hall))).
Defined.

(** After the run in which the converter failed for [note_a], the next run
    has [note_a] alone to process. *)
Example next_run_after_one_failure :
  files_to_process ascii_digit (default [] (input_dir two_notes))
    (load_processed_files
       (processed_log_file
          (world_after two_notes
             (script ascii_digit env_a_fails git_push_fails two_notes))))
  = [note_a].
Proof. by vm_compute. Qed.

Lemma run_accounting_witness :
  In (Finished FinishedPartial)
     (trace (script ascii_digit env_a_fails git_push_fails two_notes))
  /\ newly_processed_count
       (final (script ascii_digit env_a_fails git_push_fails two_notes))
     = length (List.filter
                 (fun f => is_completed (progress_of ascii_digit env_a_fails f))
                 (files_to_process ascii_digit (default [] (input_dir two_notes))
                    (load_processed_files (processed_log_file two_notes)))).
Proof.
  assert (H : In (Finished FinishedPartial)
                (trace (script ascii_digit env_a_fails git_push_fails two_notes))).
  { vm_compute. auto 20. }
  split; [exact H|].
  exact (proj1 (run_accounting ascii_digit env_a_fails git_push_fails two_notes
                  FinishedPartial H)).
Defined.

Lemma parsed_date_formats_back_witness :
  (forall c, 48 <= c <= 57 -> ascii_digit c = Some (c - 48))
  /\ Forall (fun c => 48 <= c <= 57) (lit "20240229")
  /\ strptime_Ymd ascii_digit (lit "20240229")
     = Ok {| year := 2024; month := 2; day := 29 |}
  /\ length (lit "20240229") = 8%nat.
Proof.
  assert (H : Forall (fun c => 48 <= c <= 57) (lit "20240229"))
    by (repeat constructor; cbn; lia).
  split; [exact ascii_digit_range|]. split; [exact H|]. split; [reflexivity|].
  exact (proj1 (parsed_date_formats_back ascii_digit (lit "20240229") _
                  ascii_digit_range H eq_refl)).
Defined.

Lemma impossible_date_is_rejected_witness :
  re_match_note ascii_digit note_feb30 = Some (lit "20240230", lit "120000")
  /\ calendar_date 2024 2 30 = false
  /\ iteration ascii_digit env_fine (initial_state two_notes) note_feb30
     = logged (initial_state two_notes)
         [Processing note_feb30; Failed note_feb30 ParseError].
Proof.
  split; [reflexivity|]. split; [reflexivity|].
  exact (proj2 (impossible_date_is_rejected ascii_digit env_fine
                  (initial_state two_notes) note_feb30
                  (lit "20240230") (lit "120000") 2024 2 30
                  (fun c _ => eq_refl) eq_refl eq_refl eq_refl eq_refl eq_refl)).
Defined.

(** After 1 or 2 the second character of the day is any decimal digit: with
    the Arabic-Indic three the date part is the thirteenth of January, and
    the daily document is named in ASCII digits; in the month the same
    character is refused. *)
Example day_with_an_arabic_indic_digit :
  strptime_Ymd two_scripts (lit "2024011" ++ [1635])
  = Ok {| year := 2024; month := 1; day := 13 |}
  /\ target_of two_scripts (lit "2024011" ++ [1635] ++ lit "_120000.note")
     = Some (lit "2024-01-13.md")
  /\ strptime_Ymd two_scripts (lit "20240" ++ [1633] ++ lit "13")
     = Raise ValueError.
Proof. by vm_compute. Qed.

(** A year below 1000 is written without padding. *)
Example year_999 :
  strptime_Ymd ascii_digit (lit "09990101")
  = Ok {| year := 999; month := 1; day := 1 |}
  /\ target_of ascii_digit (lit "09990101_120000.note") = Some (lit "999-01-01.md").
Proof. by vm_compute. Qed.

Lemma fragment_that_cannot_be_encoded_witness :
  encodable (strip (lit "Hi " ++ [55296])) = false
  /\ docs (iteration ascii_digit env_surrogate (initial_state two_notes) note_a)
     !! lit "2024-01-01.md"
     = Some (supernote_header_text ++ [LF]).
Proof.
  split; [reflexivity|].
  exact (proj1 (proj2 (fragment_that_cannot_be_encoded ascii_digit env_surrogate
                  (initial_state two_notes) note_a (lit "20240101") (lit "120000")
                  {| year := 2024; month := 1; day := 1 |}
                  (response_ok (lit "Hi " ++ [55296])) (lit "Hi " ++ [55296])
                  eq_refl eq_refl eq_refl eq_refl eq_refl eq_refl eq_refl
                  eq_refl)) eq_refl).
Defined.

Lemma text_that_is_no_string_witness :
  extract_text response_number = Ok (JNum 5)
  /\ is_string (JNum 5) = false
  /\ iteration ascii_digit env_number (initial_state two_notes) note_a
     = logged (initial_state two_notes)
         [Processing note_a; Converted note_a; Recognized note_a;
          Failed note_a UnexpectedError].
Proof.
  split; [reflexivity|]. split; [reflexivity|].
  exact (text_that_is_no_string ascii_digit env_number (initial_state two_notes)
           note_a (lit "20240101") (lit "120000")
           {| year := 2024; month := 1; day := 1 |} response_number (JNum 5)
           eq_refl eq_refl eq_refl eq_refl eq_refl eq_refl eq_refl).
Defined.

(** Three captures of one date, merged one after the other. *)
Example three_captures_of_one_day :
  merge_all None [lit "one"; lit " two "; lit "three" ++ [LF]]
  = Some (supernote_header_text ++ [LF] ++ lit "one" ++ [LF]
          ++ lit "two" ++ [LF] ++ lit "three" ++ [LF]).
Proof. reflexivity. Qed.

End RunMore.
